(** * Telegram <-> WhatsApp bridge (index.js): routing core

    A shallow embedding of the bridge script: the configuration block that
    builds [FRIEND_TELEGRAM_IDS], [FRIEND_TAG_MAP] and [FRIEND_ID_TO_TAG]
    from the environment, the startup validation, the WhatsApp handler
    [handleWhatsAppMessage] (owner gate, prefix test, tag parsing, target
    selection, send loop, confirmation replies) and the Telegram event
    handler installed by [setupTelegramForwarding].

    JavaScript strings are modelled as lists of code units; the model covers
    the strings whose code units are below 256, so that a code unit is an
    [ascii].  On that range [toLowerCase] and [trim] below are the exact
    JavaScript functions.  The pictographs of the literal messages are kept
    as their UTF-8 bytes.  BigInt values are [Z]. *)

From Stdlib Require Import List Ascii String ZArith Lia Bool Arith.
From Stdlib Require Import DecimalString DecimalZ.
Import ListNotations.

Set Implicit Arguments.

(* ================================================================== *)
(** ** JavaScript strings *)

Module JS.

Definition jsstring := list ascii.

Definition str (s : string) : jsstring := list_ascii_of_string s.

Definition code (c : ascii) : nat := nat_of_ascii c.

Definition chr (n : nat) : ascii := ascii_of_nat n.

Definition nl : jsstring := [chr 10].

Fixpoint streq (a b : jsstring) : bool :=
  match a, b with
  | [], [] => true
  | x :: a', y :: b' => Ascii.eqb x y && streq a' b'
  | _, _ => false
  end.

(** [WhiteSpace] and [LineTerminator] code units below 256: TAB, LF, VT, FF,
    CR, SP and NBSP.  This is the set [String.prototype.trim] strips. *)
Definition is_ws (c : ascii) : bool :=
  let n := code c in
  ((9 <=? n) && (n <=? 13)) || (n =? 32) || (n =? 160).

Fixpoint trimStart (s : jsstring) : jsstring :=
  match s with
  | [] => []
  | c :: r => if is_ws c then trimStart r else s
  end.

Definition trimEnd (s : jsstring) : jsstring := rev (trimStart (rev s)).

Definition trim (s : jsstring) : jsstring := trimEnd (trimStart s).

(** [toLowerCase] on code units below 256: A-Z and the Latin-1 capitals
    U+00C0..U+00DE (the multiplication sign U+00D7 apart) move up by 32. *)
Definition lower_char (c : ascii) : ascii :=
  let n := code c in
  if ((65 <=? n) && (n <=? 90))
     || ((192 <=? n) && (n <=? 222) && negb (n =? 215))
  then chr (n + 32) else c.

Definition toLowerCase (s : jsstring) : jsstring := map lower_char s.

Fixpoint startsWith (s p : jsstring) {struct p} : bool :=
  match p with
  | [] => true
  | c :: p' =>
      match s with
      | [] => false
      | d :: s' => Ascii.eqb d c && startsWith s' p'
      end
  end.

(** [s.substring(n)] and [s.substring(0, n)] for [0 <= n]. *)
Definition substring_from (n : nat) (s : jsstring) : jsstring := skipn n s.
Definition substring_to (n : nat) (s : jsstring) : jsstring := firstn n s.

(** [s.indexOf(c)] for a one-character needle: the position, or -1. *)
Fixpoint indexOf (c : ascii) (s : jsstring) : Z :=
  match s with
  | [] => (-1)%Z
  | d :: r =>
      if Ascii.eqb d c then 0%Z
      else let i := indexOf c r in
           if (i <? 0)%Z then (-1)%Z else (i + 1)%Z
  end.

Definition includes (c : ascii) (s : jsstring) : bool :=
  existsb (Ascii.eqb c) s.

(** [s.split(c)] for a one-character separator. *)
Fixpoint split (c : ascii) (s : jsstring) : list jsstring :=
  match s with
  | [] => [[]]
  | d :: r =>
      if Ascii.eqb d c then [] :: split c r
      else match split c r with
           | [] => [[d]]
           | w :: ws => (d :: w) :: ws
           end
  end.

Fixpoint join (sep : jsstring) (l : list jsstring) : jsstring :=
  match l with
  | [] => []
  | [x] => x
  | x :: r => x ++ sep ++ join sep r
  end.

(** [s.replace(pat, '')]: the first occurrence of [pat] is removed. *)
Fixpoint remove_first (pat s : jsstring) {struct s} : jsstring :=
  if startsWith s pat then skipn (List.length pat) s
  else match s with
       | [] => []
       | c :: r => c :: remove_first pat r
       end.

(** The text before the first space, and the text before the first white
    space character: the whole string when there is none. *)
Fixpoint before_space (s : jsstring) : jsstring :=
  match s with
  | [] => []
  | c :: r => if Ascii.eqb c " " then [] else c :: before_space r
  end.

Fixpoint before_whitespace (s : jsstring) : jsstring :=
  match s with
  | [] => []
  | c :: r => if is_ws c then [] else c :: before_whitespace r
  end.

Definition is_digit (c : ascii) : bool :=
  let n := code c in (48 <=? n) && (n <=? 57).

(** [/^\d+$/.test(s)] *)
Definition all_digits (s : jsstring) : bool :=
  match s with
  | [] => false
  | _ => forallb is_digit s
  end.

(** Value of a digit in a radix up to 16. *)
Definition digit_value (radix : Z) (c : ascii) : option Z :=
  let n := Z.of_nat (code c) in
  let v := if ((48 <=? n) && (n <=? 57))%Z then (n - 48)%Z
           else if ((97 <=? n) && (n <=? 102))%Z then (n - 87)%Z
           else if ((65 <=? n) && (n <=? 70))%Z then (n - 55)%Z
           else 16%Z in
  if (v <? radix)%Z then Some v else None.

Fixpoint parse_digits (radix acc : Z) (s : jsstring) : option Z :=
  match s with
  | [] => Some acc
  | c :: r =>
      match digit_value radix c with
      | Some d => parse_digits radix (acc * radix + d) r
      | None => None
      end
  end.

Definition parse_number (radix : Z) (s : jsstring) : option Z :=
  match s with
  | [] => None
  | _ => parse_digits radix 0 s
  end.

(** [BigInt(s)] for a string argument (StringToBigInt): [None] stands for
    the SyntaxError it throws. *)
Definition BigInt (s : jsstring) : option Z :=
  let t := trim s in
  match t with
  | [] => Some 0%Z
  | c0 :: r0 =>
      let signed :=
        if Ascii.eqb c0 "+" then parse_number 10 r0
        else if Ascii.eqb c0 "-" then option_map Z.opp (parse_number 10 r0)
        else parse_number 10 t in
      match r0 with
      | c1 :: r1 =>
          if Ascii.eqb c0 "0" then
            if Ascii.eqb c1 "x" || Ascii.eqb c1 "X" then parse_number 16 r1
            else if Ascii.eqb c1 "o" || Ascii.eqb c1 "O" then parse_number 8 r1
            else if Ascii.eqb c1 "b" || Ascii.eqb c1 "B" then parse_number 2 r1
            else signed
          else signed
      | [] => signed
      end
  end.

(** The longest prefix of radix digits, as a number; [None] when empty. *)
Fixpoint leading_digits (radix : Z) (acc : option Z) (s : jsstring) : option Z :=
  match s with
  | [] => acc
  | c :: r =>
      match digit_value radix c with
      | Some d =>
          leading_digits radix
            (Some (match acc with Some a => a * radix + d | None => d end)%Z) r
      | None => acc
      end
  end.

(** [parseInt(s)] without a radix: [None] stands for NaN.  The result is a
    Number in JavaScript; the script only tests it for NaN and for zero,
    which rounding to a double does not change. *)
Definition parseInt (s : jsstring) : option Z :=
  let t := trimStart s in
  let '(neg, u) :=
    match t with
    | c :: r => if Ascii.eqb c "-" then (true, r)
                else if Ascii.eqb c "+" then (false, r) else (false, t)
    | [] => (false, t)
    end in
  let v :=
    match u with
    | c0 :: c1 :: r =>
        if Ascii.eqb c0 "0" && (Ascii.eqb c1 "x" || Ascii.eqb c1 "X")
        then leading_digits 16 None r
        else leading_digits 10 None u
    | _ => leading_digits 10 None u
    end in
  option_map (fun z => if neg then (- z)%Z else z) v.

(** [n.toString()] for a BigInt and for a loop counter. *)
Definition Z_toString (z : Z) : jsstring :=
  str (NilZero.string_of_int (Z.to_int z)).

Definition nat_toString (n : nat) : jsstring :=
  str (NilZero.string_of_uint (Nat.to_uint n)).

End JS.

Import JS.

(* ================================================================== *)
(** ** Ordinary objects used as maps *)

Module Obj.

(** An object created by the literal [{}]: its own properties in insertion
    order.  Its prototype is [Object.prototype]. *)
Definition object (V : Type) := list (jsstring * V).

Definition empty {V : Type} : object V := [].

Fixpoint own {V : Type} (o : object V) (k : jsstring) : option V :=
  match o with
  | [] => None
  | (k', v) :: r => if streq k' k then Some v else own r k
  end.

(** The property names of [Object.prototype]. *)
Definition prototype_names : list jsstring :=
  map str
    ["constructor"; "__defineGetter__"; "__defineSetter__"; "hasOwnProperty";
     "__lookupGetter__"; "__lookupSetter__"; "isPrototypeOf";
     "propertyIsEnumerable"; "toString"; "valueOf"; "__proto__";
     "toLocaleString"]%string.

Definition inherited (k : jsstring) : bool := existsb (streq k) prototype_names.

(** The result of the property read [o[k]]. *)
Inductive lookup (V : Type) : Type :=
| Own (v : V)
| Inherited (name : jsstring)
| Undefined.

Arguments Inherited {V} name.
Arguments Undefined {V}.

Definition get {V : Type} (o : object V) (k : jsstring) : lookup V :=
  match own o k with
  | Some v => Own v
  | None => if inherited k then Inherited k else Undefined
  end.

Fixpoint update {V : Type} (o : object V) (k : jsstring) (v : V) : object V :=
  match o with
  | [] => [(k, v)]
  | (k', v') :: r =>
      if streq k' k then (k', v) :: r else (k', v') :: update r k v
  end.

(** The assignment [o[k] = v] of a primitive [v]: the inherited [__proto__]
    setter ignores a value that is not an object, every other key becomes
    (or overwrites) an own property. *)
Definition set {V : Type} (o : object V) (k : jsstring) (v : V) : object V :=
  if streq k (str "__proto__") then o else update o k v.

(** A canonical array index: "0", or digits without a leading zero, below
    2^32 - 1. *)
Definition array_index (k : jsstring) : option Z :=
  match k with
  | [] => None
  | c :: r =>
      if all_digits k && (negb (Ascii.eqb c "0") || match r with [] => true | _ => false end)
      then match parse_number 10 k with
           | Some z => if (z <? 4294967295)%Z then Some z else None
           | None => None
           end
      else None
  end.

Fixpoint insert_index (i : Z) (l : list Z) : list Z :=
  match l with
  | [] => [i]
  | j :: r => if (i <=? j)%Z then i :: l else j :: insert_index i r
  end.

Fixpoint index_keys (ks : list jsstring) : list Z :=
  match ks with
  | [] => []
  | k :: r =>
      match array_index k with
      | Some i => insert_index i (index_keys r)
      | None => index_keys r
      end
  end.

Definition is_index (k : jsstring) : bool :=
  match array_index k with Some _ => true | None => false end.

(** [Object.keys(o)]: array indices in ascending order, then the other keys
    in insertion order. *)
Definition keys {V : Type} (o : object V) : list jsstring :=
  let ks := map fst o in
  map Z_toString (index_keys ks) ++ filter (fun k => negb (is_index k)) ks.

End Obj.

(* ================================================================== *)
(** ** Configuration block and startup validation (lines 36-145) *)

Module Config.

(** [process.env] restricted to the keys the script reads, and whether
    [telegram-session.txt] exists. *)
Record Env : Type := mkEnv {
  env_TELEGRAM_API_ID : option jsstring;
  env_TELEGRAM_API_HASH : option jsstring;
  env_TELEGRAM_PHONE : option jsstring;
  env_FRIEND_TELEGRAM_IDS : option jsstring;
  env_FRIEND_TELEGRAM_ID : option jsstring;
  env_YOUR_WHATSAPP_NUMBER : option jsstring;
  env_MESSAGE_PREFIX : option jsstring;
  env_FRIEND_TAGS : option jsstring;
  session_file_exists : bool
}.

(** Truthiness of a value that is a string or [undefined]. *)
Definition truthy (v : option jsstring) : bool :=
  match v with
  | Some (_ :: _) => true
  | _ => false
  end.

(** [a || b] *)
Definition js_or (a b : option jsstring) : option jsstring :=
  if truthy a then a else b.

Definition or_default (a : option jsstring) (d : jsstring) : jsstring :=
  match js_or a (Some d) with Some s => s | None => d end.

Inductive JSError : Type := TypeError | SyntaxError.

(** How the top-level script goes on: it keeps running with a value, it
    calls [process.exit(code)] after writing to stderr (the first line
    written is kept), or an exception escapes the module, which ends the
    process with a stack trace and a non-zero status. *)
Inductive Startup (A : Type) : Type :=
| Running (a : A)
| Exit (status : Z) (stderr : jsstring)
| Uncaught (e : JSError).

Arguments Exit {A} status stderr.
Arguments Uncaught {A} e.

Definition bind {A B : Type} (m : Startup A) (k : A -> Startup B) : Startup B :=
  match m with
  | Running a => k a
  | Exit c e => Exit c e
  | Uncaught e => Uncaught e
  end.

Notation "x <- m ;; k" := (bind m (fun x => k))
  (at level 61, m at next level, right associativity).

(** The cross mark U+274C in UTF-8. *)
Definition cross_mark : jsstring := [chr 226; chr 157; chr 140].

Definition err_invalid_format : jsstring :=
  nl ++ cross_mark ++ str " ERROR: Invalid format in FRIEND_TELEGRAM_IDS".
Definition err_invalid_id : jsstring :=
  nl ++ cross_mark ++ str " ERROR: Invalid ID in FRIEND_TELEGRAM_IDS".
Definition err_api_id : jsstring :=
  cross_mark ++ str " ERROR: TELEGRAM_API_ID is missing or invalid".
Definition err_api_hash : jsstring :=
  cross_mark ++ str " ERROR: TELEGRAM_API_HASH is missing".
Definition err_phone : jsstring :=
  cross_mark ++ str " ERROR: TELEGRAM_PHONE is missing".
Definition err_session : jsstring :=
  cross_mark ++ str " ERROR: Telegram session file not found".
Definition err_no_friends : jsstring :=
  cross_mark ++ str " ERROR: No valid friend Telegram IDs found".
Definition err_whatsapp : jsstring :=
  cross_mark ++ str " ERROR: YOUR_WHATSAPP_NUMBER is missing or invalid".

Definition placeholder_id : jsstring := str "000000000".

(** The filter of line 51: [id && id !== '000000000']. *)
Definition keep_id (id : jsstring) : bool :=
  match id with
  | [] => false
  | _ => negb (streq id placeholder_id)
  end.

(** The entries of the identifier list that reach the second [map]
    (lines 48-51). *)
Definition id_entries (friendIdsString : jsstring) : list jsstring :=
  filter keep_id (map trim (split "," friendIdsString)).

(** The callback of the second [map] (lines 52-80). *)
Definition convert_id (id : jsstring) : Startup Z :=
  if includes ":" id then Exit 1 err_invalid_format
  else if negb (all_digits id) then Exit 1 err_invalid_id
  else match BigInt id with
       | Some z => Running z
       | None => Uncaught SyntaxError
       end.

Fixpoint map_ids (ids : list jsstring) : Startup (list Z) :=
  match ids with
  | [] => Running []
  | id :: r =>
      z <- convert_id id ;;
      zs <- map_ids r ;;
      Running (z :: zs)
  end.

(** [FRIEND_TELEGRAM_IDS] (lines 48-80); [undefined.split] is a TypeError. *)
Definition parse_friend_ids (friendIdsString : option jsstring) : Startup (list Z) :=
  match friendIdsString with
  | None => Uncaught TypeError
  | Some s => map_ids (id_entries s)
  end.

Definition TagMaps : Type := (Obj.object Z * Obj.object jsstring)%type.

Definition nonempty (s : jsstring) : bool :=
  match s with [] => false | _ => true end.

(** The [forEach] callback of lines 88-95 on one [pair]. *)
Definition add_pair (maps : TagMaps) (pair : jsstring) : Startup TagMaps :=
  match map trim (split ":" pair) with
  | tag :: id :: _ =>
      if nonempty tag && nonempty id then
        match BigInt id with
        | Some bigIntId =>
            Running (Obj.set (fst maps) (toLowerCase tag) bigIntId,
                     Obj.set (snd maps) (Z_toString bigIntId) tag)
        | None => Uncaught SyntaxError
        end
      else Running maps
  | _ => Running maps
  end.

Fixpoint add_pairs (maps : TagMaps) (pairs : list jsstring) : Startup TagMaps :=
  match pairs with
  | [] => Running maps
  | p :: r => m <- add_pair maps p ;; add_pairs m r
  end.

(** [FRIEND_TAG_MAP] and [FRIEND_ID_TO_TAG] (lines 84-96). *)
Definition parse_friend_tags (FRIEND_TAGS : jsstring) : Startup TagMaps :=
  if nonempty FRIEND_TAGS
  then add_pairs (Obj.empty, Obj.empty) (split "," FRIEND_TAGS)
  else Running (Obj.empty, Obj.empty).

(** The module-level constants the handlers read. *)
Record Settings : Type := mkSettings {
  YOUR_WHATSAPP_NUMBER : jsstring;
  MESSAGE_PREFIX : jsstring;
  FRIEND_TELEGRAM_IDS : list Z;
  FRIEND_TAG_MAP : Obj.object Z;
  FRIEND_ID_TO_TAG : Obj.object jsstring
}.

Definition check (failed : bool) (stderr : jsstring) : Startup unit :=
  if failed then Exit 1 stderr else Running tt.

Definition api_id_invalid (v : option jsstring) : bool :=
  match v with
  | None => true
  | Some s => match parseInt s with
              | None => true
              | Some z => (z =? 0)%Z
              end
  end.

(** Lines 36-145 in execution order: the constants, then the checks. *)
Definition startup (env : Env) : Startup Settings :=
  let friendIdsString :=
    js_or (env_FRIEND_TELEGRAM_IDS env) (env_FRIEND_TELEGRAM_ID env) in
  let prefix := or_default (env_MESSAGE_PREFIX env) (str "tg:") in
  let tags := or_default (env_FRIEND_TAGS env) [] in
  ids <- parse_friend_ids friendIdsString ;;
  maps <- parse_friend_tags tags ;;
  _ <- check (api_id_invalid (env_TELEGRAM_API_ID env)) err_api_id ;;
  _ <- check (negb (truthy (env_TELEGRAM_API_HASH env))) err_api_hash ;;
  _ <- check (negb (truthy (env_TELEGRAM_PHONE env))) err_phone ;;
  _ <- check (negb (session_file_exists env)) err_session ;;
  _ <- check (Nat.eqb (List.length ids) 0) err_no_friends ;;
  match env_YOUR_WHATSAPP_NUMBER env with
  | Some (c :: r) =>
      if streq (c :: r) (str "34000000000") then Exit 1 err_whatsapp
      else Running (mkSettings (c :: r) prefix ids (fst maps) (snd maps))
  | _ => Exit 1 err_whatsapp
  end.

End Config.

(* ================================================================== *)
(** ** Effects: the two transports and the console *)

Module Effects.

(** What is handed to [telegramClient.sendMessage] as the entity: a BigInt
    read from the configuration, or a member of [Object.prototype] read
    through [FRIEND_TAG_MAP[...]]. *)
Inductive Peer : Type :=
| PeerId (id : Z)
| PeerObject (name : jsstring).

(** How an awaited promise settles. *)
Inductive Outcome : Type :=
| Resolved
| Rejected (message : jsstring).

Record Sender : Type := mkSender {
  firstName : option jsstring;
  lastName : option jsstring
}.

Inductive Event : Type :=
| TelegramSend (entity : Peer) (text : jsstring) (r : Outcome)
| WhatsAppReply (text : jsstring) (r : Outcome)
| WhatsAppSend (chatId text : jsstring) (r : Outcome)
| TelegramGetSender
| ConsoleLog (text : jsstring)
| ConsoleError (text : jsstring).

(** The transports as seen by the handlers: each call settles one way or the
    other and moves the outside world on. *)
Record Transport (W : Type) : Type := mkTransport {
  telegram_sendMessage : W -> Peer -> jsstring -> Outcome * W;
  msg_reply : W -> jsstring -> Outcome * W;
  whatsapp_sendMessage : W -> jsstring -> jsstring -> Outcome * W;
  message_getSender : W -> (option Sender + jsstring) * W
}.

Inductive Completion (A : Type) : Type :=
| Normal (a : A)
| Throw (message : jsstring).

Arguments Throw {A} message.

(** A computation reads and moves the world and extends the trace. *)
Definition IO (W A : Type) : Type :=
  W -> list Event -> Completion A * W * list Event.

Definition ret {W A : Type} (a : A) : IO W A :=
  fun w tr => (Normal a, w, tr).

Definition throw {W A : Type} (m : jsstring) : IO W A :=
  fun w tr => (Throw m, w, tr).

Definition bind {W A B : Type} (m : IO W A) (k : A -> IO W B) : IO W B :=
  fun w tr =>
    match m w tr with
    | (Normal a, w', tr') => k a w' tr'
    | (Throw e, w', tr') => (Throw e, w', tr')
    end.

Definition try_catch {W A : Type} (m : IO W A) (h : jsstring -> IO W A) : IO W A :=
  fun w tr =>
    match m w tr with
    | (Normal a, w', tr') => (Normal a, w', tr')
    | (Throw e, w', tr') => h e w' tr'
    end.

Definition settle {W : Type} (r : Outcome) : IO W unit :=
  match r with
  | Resolved => ret tt
  | Rejected m => throw m
  end.

Definition await_telegram_send {W : Type} (T : Transport W)
    (entity : Peer) (text : jsstring) : IO W unit :=
  fun w tr =>
    let '(r, w') := telegram_sendMessage T w entity text in
    settle r w' (tr ++ [TelegramSend entity text r]).

Definition await_reply {W : Type} (T : Transport W) (text : jsstring) : IO W unit :=
  fun w tr =>
    let '(r, w') := msg_reply T w text in
    settle r w' (tr ++ [WhatsAppReply text r]).

Definition await_whatsapp_send {W : Type} (T : Transport W)
    (chatId text : jsstring) : IO W unit :=
  fun w tr =>
    let '(r, w') := whatsapp_sendMessage T w chatId text in
    settle r w' (tr ++ [WhatsAppSend chatId text r]).

Definition await_getSender {W : Type} (T : Transport W) : IO W (option Sender) :=
  fun w tr =>
    let '(r, w') := message_getSender T w in
    match r with
    | inl s => (Normal s, w', tr ++ [TelegramGetSender])
    | inr m => (Throw m, w', tr ++ [TelegramGetSender])
    end.

Definition console_log {W : Type} (text : jsstring) : IO W unit :=
  fun w tr => (Normal tt, w, tr ++ [ConsoleLog text]).

Definition console_error {W : Type} (text : jsstring) : IO W unit :=
  fun w tr => (Normal tt, w, tr ++ [ConsoleError text]).

End Effects.

Declare Scope io_scope.
Delimit Scope io_scope with io.
Notation "x <- m ;; k" := (Effects.bind m (fun x => k))
  (at level 61, m at next level, right associativity) : io_scope.
Notation "m ;; k" := (Effects.bind m (fun _ => k))
  (at level 61, right associativity) : io_scope.

(* ================================================================== *)
(** ** The handlers (lines 261-371 and 401-453) *)

Module Bridge.

Import Config Effects.
Local Open Scope io_scope.

(** Pictographs of the literal messages, as UTF-8 bytes. *)
Definition warning_sign : jsstring :=
  [chr 226; chr 154; chr 160; chr 239; chr 184; chr 143].
Definition check_mark : jsstring := [chr 226; chr 156; chr 133].
Definition outbox_tray : jsstring := [chr 240; chr 159; chr 147; chr 164].
Definition inbox_tray : jsstring := [chr 240; chr 159; chr 147; chr 165].
Definition envelope : jsstring := [chr 240; chr 159; chr 147; chr 168].
Definition dquote : jsstring := [chr 34].
Definition arrow : jsstring := [chr 226; chr 134; chr 146].

(** The message object of whatsapp-web.js, as far as the handler reads it. *)
Record Message : Type := mkMessage {
  from : jsstring;
  fromMe : bool;
  body : jsstring
}.

(** Truthiness of [FRIEND_TAG_MAP[k]]: the BigInt [0n] is falsy, a member of
    [Object.prototype] is truthy. *)
Definition tag_truthy (v : Obj.lookup Z) : bool :=
  match v with
  | Obj.Own z => negb (z =? 0)%Z
  | Obj.Inherited _ => true
  | Obj.Undefined => false
  end.

Definition is_tag (cfg : Settings) (k : jsstring) : bool :=
  tag_truthy (Obj.get (FRIEND_TAG_MAP cfg) k).

(** [String(x)] of a member of [Object.prototype]. *)
Definition inherited_toString (name : jsstring) : jsstring :=
  if streq name (str "__proto__") then str "[object Object]"
  else if streq name (str "constructor")
       then str "function Object() { [native code] }"
       else str "function " ++ name ++ str "() { [native code] }".

Definition peer_toString (p : Peer) : jsstring :=
  match p with
  | PeerId z => Z_toString z
  | PeerObject n => inherited_toString n
  end.

(** [FRIEND_ID_TO_TAG[key] || key] *)
Definition tag_or (cfg : Settings) (key : jsstring) : jsstring :=
  match Obj.get (FRIEND_ID_TO_TAG cfg) key with
  | Obj.Own (c :: r) => c :: r
  | Obj.Own [] => key
  | Obj.Inherited n => inherited_toString n
  | Obj.Undefined => key
  end.

(** What lines 272-308 decide about a body. *)
Inductive Routing : Type :=
| NotACommand
| EmptyMessage
| NoMessageAfterTag
| Command (targetTag messageToSend : jsstring).

(** Lines 272-281: the text after the prefix, when the body starts with it. *)
Definition after_prefix (cfg : Settings) (body : jsstring) : option jsstring :=
  let lowerBody := toLowerCase body in
  let lowerPrefix := toLowerCase (MESSAGE_PREFIX cfg) in
  if negb (startsWith lowerBody lowerPrefix) then None
  else Some (trim (substring_from (List.length (MESSAGE_PREFIX cfg)) body)).

(** Lines 293-308. *)
Definition parse_tag (cfg : Settings) (afterPrefix : jsstring) : Routing :=
  let firstSpace := indexOf " " afterPrefix in
  if (firstSpace >? 0)%Z then
    let potentialTag :=
      toLowerCase (substring_to (Z.to_nat firstSpace) afterPrefix) in
    if streq potentialTag (str "all") || is_tag cfg potentialTag
    then Command potentialTag
           (trim (substring_from (Z.to_nat (firstSpace + 1)) afterPrefix))
    else Command (str "all") afterPrefix
  else if streq (toLowerCase afterPrefix) (str "all")
          || is_tag cfg (toLowerCase afterPrefix)
  then NoMessageAfterTag
  else Command (str "all") afterPrefix.

Definition route (cfg : Settings) (body : jsstring) : Routing :=
  match after_prefix cfg body with
  | None => NotACommand
  | Some [] => EmptyMessage
  | Some afterPrefix => parse_tag cfg afterPrefix
  end.

(** Lines 315-328: [Some (targetFriendIds, targetDescription)], or [None]
    for the unknown tag. *)
Definition select_targets (cfg : Settings) (targetTag : jsstring)
  : option (list Peer * jsstring) :=
  if streq targetTag (str "all")
  then Some (map PeerId (FRIEND_TELEGRAM_IDS cfg), str "all friends")
  else match Obj.get (FRIEND_TAG_MAP cfg) targetTag with
       | Obj.Own z =>
           if (z =? 0)%Z then None
           else Some ([PeerId z], str "friend " ++ dquote ++ targetTag ++ dquote)
       | Obj.Inherited n =>
           Some ([PeerObject n], str "friend " ++ dquote ++ targetTag ++ dquote)
       | Obj.Undefined => None
       end.

Definition tag_list (cfg : Settings) : jsstring :=
  join (str ", ") (Obj.keys (FRIEND_TAG_MAP cfg)).

(** The replies. *)
Definition usage_text (cfg : Settings) : jsstring :=
  let tagHelp :=
    if (0 <? List.length (Obj.keys (FRIEND_TAG_MAP cfg)))%nat
    then nl ++ str "   Tags: " ++ tag_list cfg ++ str ", all"
    else [] in
  warning_sign ++ str " Message is empty." ++ nl ++ nl ++ str "Usage:" ++ nl
    ++ str "   " ++ MESSAGE_PREFIX cfg ++ str " Your message" ++ nl
    ++ str "   " ++ MESSAGE_PREFIX cfg ++ str "all Your message" ++ nl
    ++ str "   " ++ MESSAGE_PREFIX cfg ++ str "john Your message" ++ tagHelp.

Definition no_message_text : jsstring :=
  warning_sign ++ str " No message provided after tag.".

Definition empty_text : jsstring := warning_sign ++ str " Message is empty.".

Definition unknown_tag_text (cfg : Settings) (targetTag : jsstring) : jsstring :=
  warning_sign ++ str " Unknown tag: " ++ dquote ++ targetTag ++ dquote ++ nl
    ++ str "Available: " ++ tag_list cfg ++ str ", all".

Definition sent_text (targetTag : jsstring) (successCount : nat) : jsstring :=
  let recipients :=
    if streq targetTag (str "all")
    then nat_toString successCount ++ str " friend(s)"
    else targetTag in
  check_mark ++ str " Sent to " ++ recipients ++ str " on Telegram".

Definition failed_text (errorCount : nat) : jsstring :=
  warning_sign ++ str " Failed to send to " ++ nat_toString errorCount
    ++ str " friend(s)".

Definition error_text : jsstring :=
  cross_mark ++ str " Error sending message to Telegram".

Definition preview (text : jsstring) : jsstring :=
  substring_to 50 text ++ (if (50 <? List.length text)%nat then str "..." else []).

Section Handlers.

Variable W : Type.
Variable T : Transport W.
Variable cfg : Settings.

(** The loop of lines 339-350, with the two counters. *)
Fixpoint send_loop (targetFriendIds : list Peer) (messageToSend : jsstring)
    (successCount errorCount : nat) : IO W (nat * nat) :=
  match targetFriendIds with
  | [] => ret (successCount, errorCount)
  | friendId :: rest =>
      counts <-
        try_catch
          (await_telegram_send T friendId messageToSend ;;
           console_log (str "   " ++ check_mark ++ str " Sent to: "
                          ++ tag_or cfg (peer_toString friendId)) ;;
           ret (S successCount, errorCount))
          (fun error =>
             console_error (str "   " ++ cross_mark ++ str " Failed to send to "
                              ++ tag_or cfg (peer_toString friendId) ++ str ": "
                              ++ error) ;;
             ret (successCount, S errorCount)) ;;
      send_loop rest messageToSend (fst counts) (snd counts)
  end.

(** Lines 352-361: the confirmation sent back to WhatsApp. *)
Definition confirm (targetTag : jsstring) (counts : nat * nat) : IO W unit :=
  (if (0 <? fst counts)%nat
   then await_reply T (sent_text targetTag (fst counts))
   else ret tt) ;;
  (if (0 <? snd counts)%nat
   then await_reply T (failed_text (snd counts))
   else ret tt).

(** Lines 330-361. *)
Definition forward_command (targetTag messageToSend : jsstring)
    (targetFriendIds : list Peer) (targetDescription : jsstring) : IO W unit :=
  console_log (nl ++ outbox_tray ++ str " [WhatsApp " ++ arrow
                 ++ str " Telegram] Sending message...") ;;
  console_log (str "   From: You (WhatsApp)") ;;
  console_log (str "   To: " ++ targetDescription ++ str " ("
                 ++ nat_toString (List.length targetFriendIds)
                 ++ str " recipient(s))") ;;
  console_log (str "   Message: " ++ dquote ++ preview messageToSend ++ dquote) ;;
  counts <- send_loop targetFriendIds messageToSend 0 0 ;;
  confirm targetTag counts.

(** The owner gate of lines 264-270. *)
Definition from_owner (msg : Message) : bool :=
  let fromNumber := remove_first (str "@c.us") (from msg) in
  negb (negb (fromMe msg) && negb (streq fromNumber (YOUR_WHATSAPP_NUMBER cfg))).

(** The [try] block of lines 262-362. *)
Definition handle_body (msg : Message) : IO W unit :=
  if negb (from_owner msg) then ret tt
  else
    match route cfg (body msg) with
    | NotACommand => ret tt
    | EmptyMessage => await_reply T (usage_text cfg)
    | NoMessageAfterTag => await_reply T no_message_text
    | Command targetTag messageToSend =>
        match messageToSend with
        | [] => await_reply T empty_text
        | _ =>
            match select_targets cfg targetTag with
            | None => await_reply T (unknown_tag_text cfg targetTag)
            | Some (targetFriendIds, targetDescription) =>
                forward_command targetTag messageToSend
                  targetFriendIds targetDescription
            end
        end
    end.

(** [handleWhatsAppMessage] (lines 261-371). *)
Definition handleWhatsAppMessage (msg : Message) : IO W unit :=
  try_catch (handle_body msg)
    (fun error =>
       console_error (cross_mark ++ str " Error in WhatsApp "
                        ++ arrow
                        ++ str " Telegram forwarding: " ++ error) ;;
       try_catch (await_reply T error_text)
         (fun replyError =>
            console_error (str "   Could not send error reply: " ++ replyError))).

End Handlers.

(* ------------------------------------------------------------------ *)
(** *** Telegram -> WhatsApp (lines 401-453) *)

(** The gramjs message, as far as the handler reads it: [senderId] is absent
    or an integer object whose [toString()] is its decimal notation. *)
Record TelegramMessage : Type := mkTelegramMessage {
  text : option jsstring;
  senderId : option Z
}.

Record NewMessageEvent : Type := mkEvent {
  message : option TelegramMessage
}.

(** Line 420: [FRIEND_TELEGRAM_IDS.some(id => id === senderIdBigInt)]. *)
Definition isFriend (cfg : Settings) (senderIdBigInt : Z) : bool :=
  existsb (fun id => (id =? senderIdBigInt)%Z) (FRIEND_TELEGRAM_IDS cfg).

(** A string or [undefined] inside a concatenation or a template. *)
Definition to_text (v : option jsstring) : jsstring :=
  match v with
  | Some s => s
  | None => str "undefined"
  end.

Definition sender_name (sender : Sender) : jsstring :=
  to_text (firstName sender)
    ++ (if truthy (lastName sender) then str " " ++ to_text (lastName sender)
        else []).

(** Lines 431-442: the header with the tag when [FRIEND_ID_TO_TAG] has one. *)
Definition message_header (cfg : Settings) (senderName : jsstring)
    (senderIdBigInt : Z) : jsstring :=
  match Obj.get (FRIEND_ID_TO_TAG cfg) (Z_toString senderIdBigInt) with
  | Obj.Own (c :: r) =>
      envelope ++ str " TG | " ++ senderName ++ str " (" ++ (c :: r) ++ str "):"
  | Obj.Inherited n =>
      envelope ++ str " TG | " ++ senderName ++ str " ("
        ++ inherited_toString n ++ str "):"
  | _ => envelope ++ str " TG | " ++ senderName ++ str ":"
  end.

Definition display_name (cfg : Settings) (senderName : jsstring)
    (senderIdBigInt : Z) : jsstring :=
  match Obj.get (FRIEND_ID_TO_TAG cfg) (Z_toString senderIdBigInt) with
  | Obj.Own (c :: r) => senderName ++ str " (" ++ (c :: r) ++ str ")"
  | Obj.Inherited n => senderName ++ str " (" ++ inherited_toString n ++ str ")"
  | _ => senderName
  end.

Section TelegramHandler.

Variable W : Type.
Variable T : Transport W.
Variable cfg : Settings.

(** Lines 426-448, once the sender is known to be a friend. *)
Definition forward_to_whatsapp (messageText : jsstring) (senderIdBigInt : Z)
  : IO W unit :=
  sender <- await_getSender T ;;
  match sender with
  | None => throw (str "Cannot read properties of undefined (reading 'firstName')")
  | Some sender =>
      let senderName := sender_name sender in
      console_log (nl ++ inbox_tray ++ str " [Telegram " ++ arrow
                     ++ str " WhatsApp] New message received!") ;;
      console_log (str "   From: " ++ display_name cfg senderName senderIdBigInt
                     ++ str " (ID: " ++ Z_toString senderIdBigInt ++ str ")") ;;
      console_log (str "   Message: " ++ dquote ++ preview messageText ++ dquote) ;;
      await_whatsapp_send T (YOUR_WHATSAPP_NUMBER cfg ++ str "@c.us")
        (message_header cfg senderName senderIdBigInt ++ nl ++ messageText) ;;
      console_log (str "   " ++ check_mark ++ str " Forwarded to WhatsApp")
  end.

(** The handler passed to [telegramClient.addEventHandler]. *)
Definition onNewMessage (event : NewMessageEvent) : IO W unit :=
  try_catch
    (match message event with
     | None => ret tt
     | Some message =>
         match text message with
         | Some (c :: r) =>
             match senderId message with
             | None =>
                 throw (str "Cannot read properties of undefined (reading 'toString')")
             | Some senderIdBigInt =>
                 if negb (isFriend cfg senderIdBigInt) then ret tt
                 else forward_to_whatsapp (c :: r) senderIdBigInt
             end
         | _ => ret tt
         end
     end)
    (fun error =>
       console_error (cross_mark ++ str " Error in Telegram "
                        ++ arrow
                        ++ str " WhatsApp forwarding: " ++ error)).

End TelegramHandler.

End Bridge.


(* ================================================================== *)
(** ** Reading a trace *)

Module Trace.

Import Effects.

Definition resolved (r : Outcome) : bool :=
  match r with Resolved => true | Rejected _ => false end.

(** The calls of [telegramClient.sendMessage], in order. *)
Definition telegram_sends (tr : list Event) : list (Peer * jsstring * Outcome) :=
  flat_map (fun e => match e with
                     | TelegramSend p t r => [(p, t, r)]
                     | _ => []
                     end) tr.

(** The calls of [msg.reply], in order. *)
Definition replies (tr : list Event) : list (jsstring * Outcome) :=
  flat_map (fun e => match e with
                     | WhatsAppReply t r => [(t, r)]
                     | _ => []
                     end) tr.

(** The calls of [whatsappClient.sendMessage], in order. *)
Definition whatsapp_sends (tr : list Event) : list (jsstring * jsstring * Outcome) :=
  flat_map (fun e => match e with
                     | WhatsAppSend c t r => [(c, t, r)]
                     | _ => []
                     end) tr.

Definition delivered (tr : list Event) : nat :=
  List.length (filter (fun x => resolved (snd x)) (telegram_sends tr)).

Definition failed (tr : list Event) : nat :=
  List.length (filter (fun x => negb (resolved (snd x))) (telegram_sends tr)).

(** The trace a computation leaves. *)
Definition trace_of {W A : Type} (x : Completion A * W * list Event) : list Event :=
  snd x.

End Trace.

(* ================================================================== *)
(** ** Sample environments and transports *)

Module Samples.

Import Config Effects Bridge.

(** An environment in which everything but the friends is in order. *)
Definition env_with (ids tags : jsstring) : Env :=
  mkEnv (Some (str "12345678")) (Some (str "0123456789abcdef"))
        (Some (str "+34600111222")) (Some ids) None
        (Some (str "34600111222")) None (Some tags) true.

Definition no_settings : Settings := mkSettings [] [] [] [] [].

Definition settings_of (env : Env) : Settings :=
  match startup env with
  | Running cfg => cfg
  | _ => no_settings
  end.

(** A world that counts the calls made; sends to 222 are rejected, sends of
    an object that is no identifier too, everything else resolves. *)
Definition flaky : Transport nat :=
  mkTransport
    (fun w entity _ =>
       (match entity with
        | PeerId 222 => Rejected (str "PEER_ID_INVALID")
        | PeerId _ => Resolved
        | PeerObject _ => Rejected (str "Cannot find any entity")
        end, S w))
    (fun w _ => (Resolved, S w))
    (fun w _ _ => (Resolved, S w))
    (fun w => (inl (Some (mkSender (Some (str "Ann")) None)), S w)).

Definition owner_says (text : jsstring) : Message :=
  mkMessage (str "34600111222@c.us") false text.

Definition tab : jsstring := [chr 9].

(** One friend, one tag. *)
Definition john_env : Env := env_with (str "111") (str "john:111").
Definition john_settings : Settings := settings_of john_env.

(** A tag written with a TAB inside. *)
Definition tab_env : Env := env_with (str "5") (str "a" ++ tab ++ str "b:5").
Definition tab_settings : Settings := settings_of tab_env.
Definition tab_body : jsstring := str "tg:a" ++ tab ++ str "b hi".
Definition tab_remainder : jsstring := str "a" ++ tab ++ str "b hi".

(** The same identifier listed twice. *)
Definition twice_env : Env := env_with (str "111,111") (str "").
Definition twice_settings : Settings := settings_of twice_env.


(** A tag for an identifier that the identifier list does not have. *)
Definition stray_env : Env := env_with (str "222") (str "john:111").
Definition stray_settings : Settings := settings_of stray_env.


(** Zero, not written as the placeholder. *)
Definition zero_env : Env := env_with (str "0") (str "").
Definition zero_settings : Settings := settings_of zero_env.


(** Three friends, of which [flaky] rejects the second. *)
Definition three_env : Env := env_with (str "111,222,333") (str "john:111").
Definition three_settings : Settings := settings_of three_env.

(** A tag for the identifier zero. *)
Definition zero_tag_env : Env := env_with (str "111") (str "nobody:0").
Definition zero_tag_settings : Settings := settings_of zero_tag_env.

(** The same tag twice, written differently. *)
Definition retag_env : Env := env_with (str "111,222") (str "John:111, JOHN:222").
Definition retag_settings : Settings := settings_of retag_env.

(** A tag written with a space inside. *)
Definition space_env : Env := env_with (str "5") (str "a b:5").
Definition space_settings : Settings := settings_of space_env.

End Samples.

(* ================================================================== *)
(** ** Vocabulary of the statements *)

Module Terms.

Import Config Effects Bridge Trace.

(** The replies of lines 352-361 for given counters, when each reply
    resolves. *)
Definition summary (targetTag : jsstring) (sc ec : nat) : list jsstring :=
  (if (0 <? sc)%nat then [sent_text targetTag sc] else [])
    ++ (if (0 <? ec)%nat then [failed_text ec] else []).

Definition all_resolved (rs : list (jsstring * Outcome)) : bool :=
  forallb (fun x => resolved (snd x)) rs.


(** The identifier a [tag:id] entry names, when the entry is taken. *)
Definition pair_id (pair : jsstring) : list Z :=
  match map trim (split ":" pair) with
  | tag :: id :: _ =>
      if nonempty tag && nonempty id
      then match BigInt id with Some z => [z] | None => [] end
      else []
  | _ => []
  end.

(** The identifiers the tag list names. *)
Definition declared_tag_ids (FRIEND_TAGS : jsstring) : list Z :=
  flat_map pair_id (split "," FRIEND_TAGS).




(** The event for a message with the given text and sender. *)
Definition incoming (messageText : jsstring) (senderId : Z) : NewMessageEvent :=
  mkEvent (Some (mkTelegramMessage (Some messageText) (Some senderId))).

End Terms.

(* ================================================================== *)
(** ** Further notions used by the properties *)

Module Notions.

Import Config Effects Bridge Trace Terms.

(** A string with a code unit that [trim] keeps. *)
Definition has_text (s : jsstring) : bool := existsb (fun c => negb (is_ws c)) s.

(** The text after the first space. *)
Fixpoint after_space (s : jsstring) : jsstring :=
  match s with
  | [] => []
  | c :: r => if Ascii.eqb c " " then r else after_space r
  end.

(** The replies the handler can send. *)
Definition bridge_reply (cfg : Settings) (t : jsstring) : Prop :=
  t = usage_text cfg \/ t = no_message_text \/ t = error_text
  \/ (exists tag n, t = sent_text tag n) \/ (exists n, t = failed_text n).

(** What one run of the handler on [msg] may add to the trace. *)
Definition outbound (cfg : Settings) (msg : Message) (evs : list Event) : Prop :=
  whatsapp_sends evs = []
  /\ Forall (bridge_reply cfg) (map fst (replies evs))
  /\ ((from_owner cfg msg = false
       \/ forall t p, route cfg (body msg) <> Command t p) ->
      telegram_sends evs = [])
  /\ (forall t p targets d,
        from_owner cfg msg = true ->
        route cfg (body msg) = Command t p ->
        select_targets cfg t = Some (targets, d) ->
        map fst (telegram_sends evs) = map (fun x => (x, p)) targets).

(** A forwarded message for the text [txt]: sent to the owner's chat, the
    text unchanged after a header line. *)
Definition forwards (cfg : Settings) (txt : jsstring)
    (s : jsstring * jsstring * Outcome) : Prop :=
  fst (fst s) = YOUR_WHATSAPP_NUMBER cfg ++ str "@c.us"
  /\ exists header, snd (fst s) = header ++ nl ++ txt.

(** The text of an event, when it has one. *)
Definition event_text (event : NewMessageEvent) : option jsstring :=
  match message event with
  | Some m => match text m with Some (c :: r) => Some (c :: r) | _ => None end
  | None => None
  end.

(** What the [forEach] callback of lines 88-95 records for one entry: the
    lowercased tag, the tag as written and the identifier; nothing for an
    entry without two non-empty parts. *)
Definition pair_binding (pair : jsstring) : option (jsstring * jsstring * Z) :=
  match map trim (split ":" pair) with
  | tag :: id :: _ =>
      if nonempty tag && nonempty id
      then match BigInt id with
           | Some z => Some (toLowerCase tag, tag, z)
           | None => None
           end
      else None
  | _ => None
  end.

(** An entry the callback gets through: skipped, or with an identifier
    [BigInt] accepts. *)
Definition pair_ok (pair : jsstring) : bool :=
  match map trim (split ":" pair) with
  | tag :: id :: _ =>
      if nonempty tag && nonempty id
      then match BigInt id with Some _ => true | None => false end
      else true
  | _ => true
  end.

(** One step of [last_id] and of [last_tag]. *)
Definition id_step (k : jsstring) (acc : option Z) (pair : jsstring) : option Z :=
  match pair_binding pair with
  | Some (key, _, z) =>
      if streq key (str "__proto__") then acc
      else if streq key k then Some z else acc
  | None => acc
  end.

Definition tag_step (key : jsstring) (acc : option jsstring) (pair : jsstring)
  : option jsstring :=
  match pair_binding pair with
  | Some (_, tag, z) => if streq (Z_toString z) key then Some tag else acc
  | None => acc
  end.

(** The identifier of the last entry for the key [k] (an entry for the key
    "__proto__" records nothing). *)
Definition last_id (k : jsstring) (pairs : list jsstring) : option Z :=
  fold_left (id_step k) pairs None.

(** The tag, as written, of the last entry whose identifier prints as
    [key]. *)
Definition last_tag (key : jsstring) (pairs : list jsstring) : option jsstring :=
  fold_left (tag_step key) pairs None.

(** The entries of the tag list, as the script splits them. *)
Definition tag_entries (env : Env) : list jsstring :=
  split "," (or_default (env_FRIEND_TAGS env) []).

(** The checks of lines 36-145, as conditions on the environment. *)
Definition well_configured (env : Env) : Prop :=
  (exists s,
     js_or (env_FRIEND_TELEGRAM_IDS env) (env_FRIEND_TELEGRAM_ID env) = Some s
     /\ forallb all_digits (id_entries s) = true
     /\ id_entries s <> [])
  /\ forallb pair_ok (tag_entries env) = true
  /\ api_id_invalid (env_TELEGRAM_API_ID env) = false
  /\ truthy (env_TELEGRAM_API_HASH env) = true
  /\ truthy (env_TELEGRAM_PHONE env) = true
  /\ session_file_exists env = true
  /\ truthy (env_YOUR_WHATSAPP_NUMBER env) = true
  /\ env_YOUR_WHATSAPP_NUMBER env <> Some (str "34000000000").

(** The number a string of decimal digits denotes after [acc]. *)
Fixpoint uint_value (acc : Z) (d : Decimal.uint) : Z :=
  match d with
  | Decimal.Nil => acc
  | Decimal.D0 l => uint_value (acc * 10 + 0) l
  | Decimal.D1 l => uint_value (acc * 10 + 1) l
  | Decimal.D2 l => uint_value (acc * 10 + 2) l
  | Decimal.D3 l => uint_value (acc * 10 + 3) l
  | Decimal.D4 l => uint_value (acc * 10 + 4) l
  | Decimal.D5 l => uint_value (acc * 10 + 5) l
  | Decimal.D6 l => uint_value (acc * 10 + 6) l
  | Decimal.D7 l => uint_value (acc * 10 + 7) l
  | Decimal.D8 l => uint_value (acc * 10 + 8) l
  | Decimal.D9 l => uint_value (acc * 10 + 9) l
  end.

End Notions.

(* ================================================================== *)
(** ** Starting and stopping the bridge (lines 386-399, 460-508) *)

Module Lifecycle.

Import Config Effects Bridge.

(** The account [telegramClient.getMe()] answers with. *)
Record Me : Type := mkMe {
  me_firstName : option jsstring;
  me_lastName : option jsstring;
  me_username : option jsstring
}.

(** What the start and the shutdown do, in order. *)
Inductive Step : Type :=
| Connect (r : Outcome)
| GetMe (ok : bool)
| AddEventHandler
| Initialize (r : Outcome)
| Disconnect (r : Outcome)
| Destroy (r : Outcome)
| Log (text : jsstring)
| LogError (text : jsstring)
| ProcessExit (status : Z).

(** The two clients as the start and the shutdown use them. *)
Record Clients (W : Type) : Type := mkClients {
  telegram_connect : W -> Outcome * W;
  telegram_getMe : W -> (Me + jsstring) * W;
  whatsapp_initialize : W -> Outcome * W;
  telegram_disconnect : W -> Outcome * W;
  whatsapp_destroy : W -> Outcome * W
}.

(** A step of the script ends normally, throws, or ends the process. *)
Inductive Ending (A : Type) : Type :=
| Done (a : A)
| Thrown (message : jsstring)
| Exited (status : Z).

Arguments Thrown {A} message.
Arguments Exited {A} status.

Definition Proc (W A : Type) : Type :=
  W -> list Step -> Ending A * W * list Step.

Definition done {W A : Type} (a : A) : Proc W A :=
  fun w tr => (Done a, w, tr).

Definition raise {W A : Type} (m : jsstring) : Proc W A :=
  fun w tr => (Thrown m, w, tr).

Definition andThen {W A B : Type} (m : Proc W A) (k : A -> Proc W B) : Proc W B :=
  fun w tr =>
    match m w tr with
    | (Done a, w', tr') => k a w' tr'
    | (Thrown e, w', tr') => (Thrown e, w', tr')
    | (Exited c, w', tr') => (Exited c, w', tr')
    end.

Definition tryCatch {W A : Type} (m : Proc W A) (h : jsstring -> Proc W A) : Proc W A :=
  fun w tr =>
    match m w tr with
    | (Thrown e, w', tr') => h e w' tr'
    | other => other
    end.

Definition log {W : Type} (text : jsstring) : Proc W unit :=
  fun w tr => (Done tt, w, tr ++ [Log text]).

Definition logError {W : Type} (text : jsstring) : Proc W unit :=
  fun w tr => (Done tt, w, tr ++ [LogError text]).

(** [process.exit(status)] *)
Definition exit {W A : Type} (status : Z) : Proc W A :=
  fun w tr => (Exited status, w, tr ++ [ProcessExit status]).

(** An awaited call of a client that answers with nothing. *)
Definition await {W : Type} (call : W -> Outcome * W) (step : Outcome -> Step)
  : Proc W unit :=
  fun w tr =>
    let '(r, w') := call w in
    (match r with Resolved => Done tt | Rejected m => Thrown m end,
     w', tr ++ [step r]).

Definition await_getMe {W : Type} (C : Clients W) : Proc W Me :=
  fun w tr =>
    match telegram_getMe C w with
    | (inl me, w') => (Done me, w', tr ++ [GetMe true])
    | (inr m, w') => (Thrown m, w', tr ++ [GetMe false])
    end.

Definition addEventHandler {W : Type} : Proc W unit :=
  fun w tr => (Done tt, w, tr ++ [AddEventHandler]).

Declare Scope proc_scope.
Delimit Scope proc_scope with proc.
Notation "x <- m ;; k" := (andThen m (fun x => k))
  (at level 61, m at next level, right associativity) : proc_scope.
Notation "m ;; k" := (andThen m (fun _ => k))
  (at level 61, right associativity) : proc_scope.
Local Open Scope proc_scope.

Definition party_popper : jsstring := [chr 240; chr 159; chr 142; chr 137].
Definition wrench : jsstring := [chr 240; chr 159; chr 148; chr 167].
Definition plug : jsstring := [chr 240; chr 159; chr 148; chr 140].
Definition waving_hand : jsstring := [chr 240; chr 159; chr 145; chr 139].
Definition double_line : jsstring := [chr 226; chr 149; chr 144].

(** [s.repeat(n)] *)
Fixpoint repeat_string (s : jsstring) (n : nat) : jsstring :=
  match n with
  | O => []
  | S n' => s ++ repeat_string s n'
  end.

Section Scripts.

Variable W : Type.
Variable C : Clients W.
Variable cfg : Settings.

(** [setupTelegramForwarding] (lines 386-454). *)
Definition setupTelegramForwarding : Proc W unit :=
  me <- await_getMe C ;;
  log (check_mark ++ str " Telegram client ready!") ;;
  log (str "   Connected as: " ++ to_text (me_firstName me) ++ str " "
         ++ (if truthy (me_lastName me) then to_text (me_lastName me) else [])) ;;
  log (str "   Username: "
         ++ (if truthy (me_username me)
             then str "@" ++ to_text (me_username me)
             else str "(no username)")) ;;
  log (nl ++ repeat_string double_line 70) ;;
  log (party_popper ++ str " BRIDGE IS ACTIVE!") ;;
  log (repeat_string double_line 70) ;;
  log (nl ++ envelope ++ str " Forwarding Configuration:") ;;
  log (str "   Telegram " ++ arrow ++ str " WhatsApp: Messages from "
         ++ nat_toString (List.length (FRIEND_TELEGRAM_IDS cfg))
         ++ str " friend(s)") ;;
  log (str "   WhatsApp " ++ arrow ++ str " Telegram: Messages starting with "
         ++ dquote ++ MESSAGE_PREFIX cfg ++ dquote) ;;
  addEventHandler.

(** The start of the bridge (lines 460-478). *)
Definition start : Proc W unit :=
  tryCatch
    (await (telegram_connect C) Connect ;;
     setupTelegramForwarding ;;
     await (whatsapp_initialize C) Initialize)
    (fun error =>
       logError (nl ++ cross_mark ++ str " Failed to start bridge: " ++ error) ;;
       logError (nl ++ wrench ++ str " Troubleshooting:") ;;
       logError (str "   1. Check your .env file has correct values") ;;
       logError (str "   2. Run test-telegram.js to verify Telegram connection") ;;
       logError (str "   3. Run test-whatsapp.js to verify WhatsApp connection") ;;
       logError (str "   4. Check your internet connection") ;;
       exit 1).

(** The SIGINT handler (lines 488-508). *)
Definition shutdown : Proc W unit :=
  log (nl ++ nl ++ warning_sign ++ str "  Shutting down bridge...") ;;
  log (plug ++ str " Disconnecting clients..." ++ nl) ;;
  tryCatch
    (await (telegram_disconnect C) Disconnect ;;
     log (check_mark ++ str " Telegram disconnected"))
    (fun error =>
       logError (warning_sign ++ str "  Error disconnecting Telegram: " ++ error)) ;;
  tryCatch
    (await (whatsapp_destroy C) Destroy ;;
     log (check_mark ++ str " WhatsApp disconnected"))
    (fun error =>
       logError (warning_sign ++ str "  Error disconnecting WhatsApp: " ++ error)) ;;
  log (nl ++ waving_hand ++ str " Bridge stopped. Goodbye!" ++ nl) ;;
  exit 0.

End Scripts.

(** The calls of the clients and the exits in a trace, the console lines
    left out. *)
Definition calls (tr : list Step) : list Step :=
  filter (fun s => match s with Log _ | LogError _ => false | _ => true end) tr.

End Lifecycle.

(* ================================================================== *)
(** * Properties *)

(** ** Strings *)

Module JSFacts.

Lemma streq_refl (a : jsstring) : streq a a = true.
Proof.
  induction a as [|c a IH]; simpl; [reflexivity|].
  now rewrite Ascii.eqb_refl, IH.
Qed.

Lemma streq_eq (a b : jsstring) : streq a b = true <-> a = b.
Proof.
  split.
  - revert b; induction a as [|c a IH]; intros [|d b] H; simpl in H;
      try discriminate; [reflexivity|].
    apply andb_true_iff in H as [Hc Hr].
    apply Ascii.eqb_eq in Hc. apply IH in Hr. now subst.
  - intros ->. apply streq_refl.
Qed.

Lemma streq_neq (a b : jsstring) : streq a b = false <-> a <> b.
Proof.
  split.
  - intros H E. apply streq_eq in E. congruence.
  - intros H. destruct (streq a b) eqn:E; [|reflexivity].
    apply streq_eq in E. contradiction.
Qed.





Lemma firstn_app_exact {A : Type} (a r : list A) :
  firstn (List.length a) (a ++ r) = a.
Proof. induction a; simpl; congruence. Qed.

End JSFacts.

(** ** The send loop *)

Module LoopFacts.

Import Config Effects Bridge Trace.

Lemma telegram_sends_app (a b : list Event) :
  telegram_sends (a ++ b) = telegram_sends a ++ telegram_sends b.
Proof. apply flat_map_app. Qed.

Lemma replies_app (a b : list Event) : replies (a ++ b) = replies a ++ replies b.
Proof. apply flat_map_app. Qed.

Lemma whatsapp_sends_app (a b : list Event) :
  whatsapp_sends (a ++ b) = whatsapp_sends a ++ whatsapp_sends b.
Proof. apply flat_map_app. Qed.

Lemma delivered_app (a b : list Event) : delivered (a ++ b) = delivered a + delivered b.
Proof.
  unfold delivered. now rewrite telegram_sends_app, filter_app, length_app.
Qed.

Lemma failed_app (a b : list Event) : failed (a ++ b) = failed a + failed b.
Proof.
  unfold failed. now rewrite telegram_sends_app, filter_app, length_app.
Qed.

Lemma delivered_failed_total (tr : list Event) :
  delivered tr + failed tr = List.length (telegram_sends tr).
Proof.
  unfold delivered, failed.
  induction (telegram_sends tr) as [|[x r] l IH]; simpl; [reflexivity|].
  destruct (resolved r); simpl; lia.
Qed.

Lemma delivered_cons (e : Event) (tr : list Event) :
  delivered (e :: tr)
  = match e with TelegramSend _ _ Resolved => S (delivered tr) | _ => delivered tr end.
Proof. destruct e as [p t [|m]| | | | |]; reflexivity. Qed.

Lemma failed_cons (e : Event) (tr : list Event) :
  failed (e :: tr)
  = match e with TelegramSend _ _ (Rejected _) => S (failed tr) | _ => failed tr end.
Proof. destruct e as [p t [|m]| | | | |]; reflexivity. Qed.

Section Loop.

Variable W : Type.
Variable T : Transport W.
Variable cfg : Settings.

(** One pass of the loop extends the trace by one send per target, in the
    order of the targets, adds no reply, and moves each counter by the
    number of sends that settled that way. *)
Lemma send_loop_spec (messageToSend : jsstring) (targets : list Peer) :
  forall (sc ec : nat) (w : W) (tr : list Event),
  exists (w' : W) (evs : list Event),
    send_loop T cfg targets messageToSend sc ec w tr
      = (Normal (sc + delivered evs, ec + failed evs), w', tr ++ evs)
    /\ map fst (telegram_sends evs) = map (fun p => (p, messageToSend)) targets
    /\ replies evs = []
    /\ whatsapp_sends evs = [].
Proof.
  induction targets as [|p rest IH]; intros sc ec w tr.
  - exists w, []. cbn [send_loop]. unfold ret.
    rewrite !Nat.add_0_r, app_nil_r. repeat split; reflexivity.
  - cbn [send_loop].
    unfold bind at 1, try_catch at 1, bind at 1, await_telegram_send.
    destruct (telegram_sendMessage T w p messageToSend) as [r w1] eqn:Hsend.
    destruct r as [|m]; cbv [settle ret throw bind console_log console_error fst snd];
      match goal with
      | |- context [send_loop T cfg rest messageToSend ?a ?b ?c ((?t ++ [?e1]) ++ [?e2])] =>
          destruct (IH a b c ((t ++ [e1]) ++ [e2])) as (w' & evs & Hrun & Hs & Hr & Hw);
          exists w', (e1 :: e2 :: evs)
      end;
      rewrite Hrun, !delivered_cons, !failed_cons, <- !app_assoc;
      cbn [app telegram_sends replies whatsapp_sends flat_map map fst];
      (repeat split;
       [ first [ replace (sc + S (delivered evs)) with (S sc + delivered evs) by lia;
                 reflexivity
               | replace (ec + S (failed evs)) with (S ec + failed evs) by lia;
                 reflexivity ]
       | exact (f_equal (cons (p, messageToSend)) Hs)
       | exact Hr
       | exact Hw ]).
Qed.

End Loop.

End LoopFacts.

(** ** Forwarding a command (lines 330-361) *)

Module ForwardFacts.

Import Config Effects Bridge Trace Terms LoopFacts.

Lemma replies_cons (e : Event) (tr : list Event) :
  replies (e :: tr)
  = match e with WhatsAppReply t r => (t, r) :: replies tr | _ => replies tr end.
Proof. destruct e; reflexivity. Qed.

Lemma telegram_sends_cons (e : Event) (tr : list Event) :
  telegram_sends (e :: tr)
  = match e with TelegramSend p t r => (p, t, r) :: telegram_sends tr
    | _ => telegram_sends tr end.
Proof. destruct e; reflexivity. Qed.

Section Forward.

Variable W : Type.
Variable T : Transport W.
Variable cfg : Settings.

Lemma confirm_spec (targetTag : jsstring) (sc ec : nat) (w : W) (tr : list Event) :
  exists (c : Completion unit) (w' : W) (evs : list Event),
    confirm T targetTag (sc, ec) w tr = (c, w', tr ++ evs)
    /\ telegram_sends evs = []
    /\ whatsapp_sends evs = []
    /\ (exists k, map fst (replies evs) = firstn k (summary targetTag sc ec))
    /\ (all_resolved (replies evs) = true ->
        map fst (replies evs) = summary targetTag sc ec)
    /\ (0 < sc + ec -> 1 <= List.length (replies evs))
    /\ (forall m, c = Throw m -> all_resolved (replies evs) = false).
Proof.
  unfold confirm, summary, Effects.bind, await_reply, ret. cbn [fst snd].
  destruct (0 <? sc)%nat eqn:Hsc.
  - destruct (msg_reply T w (sent_text targetTag sc)) as [r1 w1].
    destruct r1 as [|m1]; cbn [settle ret throw].
    + unfold ret.
      destruct (0 <? ec)%nat eqn:Hec.
      * destruct (msg_reply T w1 (failed_text ec)) as [r2 w2].
        exists (match r2 with Resolved => Normal tt | Rejected m => Throw m end), w2,
          [WhatsAppReply (sent_text targetTag sc) Resolved;
           WhatsAppReply (failed_text ec) r2].
        repeat split.
        -- destruct r2; cbn [settle ret throw]; unfold ret, throw;
             now rewrite <- app_assoc.
        -- exists 2. reflexivity.
        -- cbn. lia.
        -- intros m. destruct r2; [discriminate|reflexivity].
      * exists (Normal tt), w1, [WhatsAppReply (sent_text targetTag sc) Resolved].
        repeat split.
        -- exists 1. reflexivity.
        -- cbn. lia.
        -- discriminate.
    + unfold throw.
      exists (Throw m1), w1, [WhatsAppReply (sent_text targetTag sc) (Rejected m1)].
      repeat split.
      * exists 1. destruct (0 <? ec)%nat; reflexivity.
      * cbn. discriminate.
      * cbn. lia.
  - destruct (0 <? ec)%nat eqn:Hec.
    + destruct (msg_reply T w (failed_text ec)) as [r2 w2].
      exists (match r2 with Resolved => Normal tt | Rejected m => Throw m end), w2,
        [WhatsAppReply (failed_text ec) r2].
      repeat split.
      * destruct r2; reflexivity.
      * exists 1. reflexivity.
      * cbn. lia.
      * intros m. destruct r2; [discriminate|reflexivity].
    + exists (Normal tt), w, []. rewrite app_nil_r.
      repeat split.
      * exists 0. reflexivity.
      * apply Nat.ltb_ge in Hsc, Hec. cbn. lia.
      * discriminate.
Qed.

(** Forwarding: four console lines, the loop, the confirmation. *)
Lemma forward_command_spec (targetTag messageToSend : jsstring)
    (targets : list Peer) (desc : jsstring) (w : W) (tr : list Event) :
  exists (c : Completion unit) (w' : W) (evs : list Event),
    forward_command T cfg targetTag messageToSend targets desc w tr
      = (c, w', tr ++ evs)
    /\ map fst (telegram_sends evs) = map (fun p => (p, messageToSend)) targets
    /\ whatsapp_sends evs = []
    /\ (exists k, map fst (replies evs)
                  = firstn k (summary targetTag (delivered evs) (failed evs)))
    /\ (all_resolved (replies evs) = true ->
        map fst (replies evs) = summary targetTag (delivered evs) (failed evs))
    /\ (targets <> [] -> 1 <= List.length (replies evs))
    /\ (forall m, c = Throw m -> all_resolved (replies evs) = false).
Proof.
  unfold forward_command.
  cbv [Effects.bind console_log].
  match goal with
  | |- context [send_loop T cfg targets messageToSend 0 0 w ?t] =>
      destruct (send_loop_spec T cfg messageToSend targets 0 0 w t)
        as (w1 & evs1 & Hrun & Hs & Hr & Hw);
      rewrite Hrun
  end.
  cbn [Nat.add].
  match goal with
  | |- context [confirm T targetTag ?cs w1 ?t] =>
      destruct (confirm_spec targetTag (delivered evs1) (failed evs1) w1 t)
        as (c & w2 & evs2 & Hc & Hts & Hws & Hk & Hall & Hone & Hthrow);
      rewrite Hc
  end.
  assert (Hd2 : delivered evs2 = 0) by (unfold delivered; now rewrite Hts).
  assert (Hf2 : failed evs2 = 0) by (unfold failed; now rewrite Hts).
  match goal with
  | |- context [((((tr ++ [?a]) ++ [?b]) ++ [?c0]) ++ [?d]) ++ evs1] =>
      exists c, w2, (a :: b :: c0 :: d :: evs1 ++ evs2)
  end.
  rewrite !delivered_cons, !failed_cons, delivered_app, failed_app, Hd2, Hf2.
  rewrite !Nat.add_0_r.
  rewrite !replies_cons, !telegram_sends_cons, replies_app, telegram_sends_app.
  rewrite Hr, Hts, app_nil_r. cbn [app].
  repeat split.
  - now rewrite <- !app_assoc.
  - exact Hs.
  - unfold whatsapp_sends in *. cbn [flat_map app].
    now rewrite flat_map_app, Hw, Hws.
  - exact Hk.
  - exact Hall.
  - intros Hne. apply Hone.
    pose proof (delivered_failed_total evs1) as Htot.
    assert (List.length (telegram_sends evs1) = List.length targets) as Hlen.
    { rewrite <- (length_map fst), Hs. apply length_map. }
    destruct targets; [contradiction|]. cbn in Hlen. lia.
  - exact Hthrow.
Qed.

End Forward.

End ForwardFacts.

(* ================================================================== *)
(** ** The dispatcher *)

Module Dispatch.

Import Config Effects Bridge Trace Terms LoopFacts ForwardFacts.


End Dispatch.

(* ================================================================== *)
(** ** The command parser (lines 272-308) *)

Module ParseFacts.

Import Config Effects Bridge Trace JSFacts.

Lemma indexOf_lower_bound (c : ascii) (s : jsstring) : (-1 <= indexOf c s)%Z.
Proof.
  induction s as [|d r IH]; simpl; [lia|].
  destruct (Ascii.eqb d c); [lia|].
  destruct (indexOf c r <? 0)%Z eqn:E; [lia|].
  apply Z.ltb_ge in E. lia.
Qed.

(** No space: [indexOf] answers -1 and nothing comes after the first word. *)
Lemma indexOf_absent (s : jsstring) :
  includes " " s = false -> indexOf " " s = (-1)%Z /\ before_space s = s.
Proof.
  unfold includes.
  induction s as [|d r IH]; cbn [existsb indexOf before_space]; intros H;
    [split; reflexivity|].
  apply orb_false_iff in H as [Hd Hr].
  rewrite Ascii.eqb_sym in Hd. rewrite Hd.
  destruct (IH Hr) as [Hi Hb]. rewrite Hi, Hb. split; reflexivity.
Qed.

Lemma indexOf_present (s : jsstring) :
  includes " " s = true ->
  (0 <= indexOf " " s)%Z
  /\ firstn (Z.to_nat (indexOf " " s)) s = before_space s.
Proof.
  unfold includes.
  induction s as [|d r IH]; cbn [existsb indexOf before_space]; intros H;
    [discriminate|].
  rewrite (Ascii.eqb_sym " " d) in H.
  destruct (Ascii.eqb d " ") eqn:Hd; [split; [lia|reflexivity]|].
  cbn [orb] in H. destruct (IH H) as [Hi Hb].
  destruct (indexOf " " r <? 0)%Z eqn:E; [apply Z.ltb_lt in E; lia|].
  split; [lia|].
  replace (Z.to_nat (indexOf " " r + 1)) with (S (Z.to_nat (indexOf " " r))) by lia.
  cbn [firstn]. now rewrite Hb.
Qed.

Lemma trimStart_head (s : jsstring) (c : ascii) (r : jsstring) :
  trimStart s = c :: r -> is_ws c = false.
Proof.
  induction s as [|d s IH]; simpl; [discriminate|].
  destruct (is_ws d) eqn:Hd; [exact IH|].
  intros E. injection E as <- _. exact Hd.
Qed.

Lemma trimStart_keeps_last (l : jsstring) (h : ascii) :
  is_ws h = false -> exists l', trimStart (l ++ [h]) = l' ++ [h].
Proof.
  intros Hh. induction l as [|d l IH]; simpl.
  - rewrite Hh. now exists [].
  - destruct (is_ws d); [exact IH|]. now exists (d :: l).
Qed.

(** A trimmed string does not start with white space. *)
Lemma trim_head (s : jsstring) (c : ascii) (r : jsstring) :
  trim s = c :: r -> is_ws c = false.
Proof.
  unfold trim, trimEnd. intros E.
  destruct (trimStart s) as [|h y] eqn:Hy; [discriminate|].
  pose proof (trimStart_head _ Hy) as Hh.
  simpl in E.
  destruct (@trimStart_keeps_last (rev y) h Hh) as [l' Hl'].
  rewrite Hl', rev_app_distr in E. simpl in E.
  injection E as <- _. exact Hh.
Qed.

Lemma space_is_ws : is_ws " " = true.
Proof. reflexivity. Qed.

(** In a trimmed string the first space, if any, is not at position 0. *)
Lemma trimmed_indexOf (s : jsstring) :
  (indexOf " " (trim s) >? 0)%Z = includes " " (trim s).
Proof.
  destruct (includes " " (trim s)) eqn:Hin.
  - destruct (indexOf_present _ Hin) as [Hi _].
    destruct (trim s) as [|c r] eqn:E; [discriminate|].
    pose proof (trim_head _ E) as Hc.
    cbn [indexOf] in *. destruct (Ascii.eqb c " ") eqn:Hsp.
    + apply Ascii.eqb_eq in Hsp. subst c. discriminate.
    + destruct (indexOf " " r <? 0)%Z eqn:E2; [lia|].
      apply Z.ltb_ge in E2. apply Z.gtb_lt. lia.
  - destruct (indexOf_absent _ Hin) as [Hi _]. now rewrite Hi.
Qed.

End ParseFacts.

Module Parser.

Import Config Effects Bridge Trace JSFacts ParseFacts Samples.

Lemma after_prefix_inv (cfg : Settings) (body r : jsstring) :
  after_prefix cfg body = Some r ->
  startsWith (toLowerCase body) (toLowerCase (MESSAGE_PREFIX cfg)) = true
  /\ r = trim (substring_from (List.length (MESSAGE_PREFIX cfg)) body).
Proof.
  unfold after_prefix.
  destruct (startsWith _ _); cbn [negb]; [|discriminate].
  intros E. injection E as <-. split; reflexivity.
Qed.

(** What [parse_tag] does with the first word of a trimmed remainder. *)
Lemma parse_tag_trimmed (cfg : Settings) (x : jsstring) :
  let r := trim x in
  let token := toLowerCase (before_space r) in
  parse_tag cfg r =
    if includes " " r then
      if streq token (str "all") || is_tag cfg token
      then Command token
             (trim (substring_from (Z.to_nat (indexOf " " r + 1)) r))
      else Command (str "all") r
    else if streq token (str "all") || is_tag cfg token
         then NoMessageAfterTag else Command (str "all") r.
Proof.
  intros r token. unfold parse_tag. fold r.
  unfold r at 1. rewrite trimmed_indexOf. fold r.
  destruct (includes " " r) eqn:Hin.
  - destruct (indexOf_present _ Hin) as [_ Hb].
    unfold substring_to. rewrite Hb. reflexivity.
  - destruct (indexOf_absent _ Hin) as [_ Hb].
    unfold token. rewrite Hb. reflexivity.
Qed.



Lemma not_a_tag (cfg : Settings) (token : jsstring) :
  Obj.own (FRIEND_TAG_MAP cfg) token = None ->
  Obj.inherited token = false ->
  is_tag cfg token = false.
Proof.
  intros Hown Hinh. unfold is_tag, Obj.get. now rewrite Hown, Hinh.
Qed.

(** C4, as the code has it.  When the first space-delimited word of the
    remainder (the whole remainder when it has no space), lowercased, is
    neither "all", nor a key of [FRIEND_TAG_MAP], nor a name every object
    inherits from [Object.prototype], the target is "all" and the payload
    is the entire trimmed remainder, first word included. *)
Theorem unrecognised_first_word_goes_to_all
    (cfg : Settings) (body r : jsstring) :
  after_prefix cfg body = Some r ->
  r <> [] ->
  toLowerCase (before_space r) <> str "all" ->
  Obj.own (FRIEND_TAG_MAP cfg) (toLowerCase (before_space r)) = None ->
  Obj.inherited (toLowerCase (before_space r)) = false ->
  route cfg body = Command (str "all") r.
Proof.
  intros Hafter Hne Hall Hown Hinh.
  unfold route. rewrite Hafter.
  destruct r as [|c r']; [contradiction|].
  destruct (after_prefix_inv _ _ Hafter) as [_ Hr].
  rewrite Hr, parse_tag_trimmed, <- Hr.
  rewrite (not_a_tag _ _ Hown Hinh).
  apply streq_neq in Hall. rewrite Hall. cbn [orb].
  now destruct (includes " " (c :: r')).
Qed.

Lemma unrecognised_first_word_goes_to_all_witness :
  route john_settings (str "tg: Hi everyone") = Command (str "all") (str "Hi everyone").
Proof.
  apply unrecognised_first_word_goes_to_all;
    [reflexivity | discriminate | discriminate | reflexivity | reflexivity].
Defined.

(** C4 as stated fails where the first white-space-delimited word differs
    from the first space-delimited one: with the tag "a<TAB>b" configured,
    the remainder "a<TAB>b hi" has the first word "a", which is neither
    "all" nor a key, and yet the target is the tag and the payload "hi". *)
Lemma whitespace_word_counterexample :
  startup tab_env = Running tab_settings
  /\ after_prefix tab_settings tab_body = Some tab_remainder
  /\ toLowerCase (before_whitespace tab_remainder) = str "a"
  /\ str "a" <> str "all"
  /\ Obj.own (FRIEND_TAG_MAP tab_settings) (str "a") = None
  /\ route tab_settings tab_body = Command (str "a" ++ tab ++ str "b") (str "hi")
  /\ route tab_settings tab_body <> Command (str "all") tab_remainder.
Proof.
  repeat split; try reflexivity; vm_compute; discriminate.
Qed.

(** The inherited names: "constructor" is no key of the map, and is taken
    for a tag all the same. *)
Example constructor_is_taken_for_a_tag :
  Obj.own (FRIEND_TAG_MAP john_settings) (str "constructor") = None
  /\ route john_settings (str "tg:constructor hi")
     = Command (str "constructor") (str "hi")
  /\ select_targets john_settings (str "constructor")
     = Some ([PeerObject (str "constructor")],
             str "friend " ++ dquote ++ str "constructor" ++ dquote).
Proof. repeat split; reflexivity. Qed.

(** C5, as the code has it.  When the non-empty remainder has no space and,
    lowercased, is "all" or a key of [FRIEND_TAG_MAP] with a non-zero
    identifier, the outcome is the reply "No message provided after tag.":
    the handler sends nothing to Telegram, its first reply is that
    diagnostic, and the diagnostic is not the usage help sent for an empty
    remainder. *)
Theorem bare_selector_has_no_message
    (W : Type) (T : Transport W) (cfg : Settings) (msg : Message)
    (r : jsstring) (w : W) (tr : list Event) :
  from_owner cfg msg = true ->
  after_prefix cfg (body msg) = Some r ->
  r <> [] ->
  includes " " r = false ->
  (toLowerCase r = str "all"
   \/ exists z, Obj.own (FRIEND_TAG_MAP cfg) (toLowerCase r) = Some z /\ z <> 0%Z) ->
  route cfg (body msg) = NoMessageAfterTag
  /\ (exists evs rest,
        trace_of (handleWhatsAppMessage T cfg msg w tr) = tr ++ evs
        /\ telegram_sends evs = []
        /\ map fst (replies evs) = no_message_text :: rest)
  /\ no_message_text <> usage_text cfg.
Proof.
  intros Howner Hafter Hne Hnosp Hsel.
  assert (Hroute : route cfg (body msg) = NoMessageAfterTag).
  { unfold route. rewrite Hafter.
    destruct r as [|c r']; [contradiction|].
    destruct (after_prefix_inv _ _ Hafter) as [_ Hr].
    rewrite Hr, parse_tag_trimmed, <- Hr, Hnosp.
    destruct (indexOf_absent _ Hnosp) as [_ Hb]. rewrite Hb.
    destruct Hsel as [Hall | (z & Hown & Hz)].
    - rewrite Hall. reflexivity.
    - unfold is_tag, Obj.get. rewrite Hown. cbn [tag_truthy].
      apply Z.eqb_neq in Hz. rewrite Hz. now rewrite orb_true_r. }
  split; [exact Hroute|]. split.
  - unfold handleWhatsAppMessage, try_catch, handle_body, trace_of.
    rewrite Howner, Hroute. cbn [negb].
    unfold await_reply.
    destruct (msg_reply T w no_message_text) as [r1 w1].
    destruct r1 as [|m]; cbn [settle ret throw snd].
    + exists [WhatsAppReply no_message_text Resolved], []. repeat split.
    + unfold throw, Effects.bind, console_error, try_catch.
      destruct (msg_reply T w1 error_text) as [r2 w2].
      destruct r2 as [|m2]; cbn [settle ret throw snd];
        eexists (_ :: _ :: _ :: _), _; rewrite <- !app_assoc;
        repeat split.
  - unfold no_message_text, usage_text, warning_sign. cbn. discriminate.
Qed.

Lemma bare_selector_has_no_message_witness :
  route john_settings (body (owner_says (str "tg:John"))) = NoMessageAfterTag
  /\ (exists evs rest,
        trace_of (handleWhatsAppMessage flaky john_settings
                    (owner_says (str "tg:John")) 0 []) = [] ++ evs
        /\ telegram_sends evs = []
        /\ map fst (replies evs) = no_message_text :: rest)
  /\ no_message_text <> usage_text john_settings.
Proof.
  apply (@bare_selector_has_no_message nat flaky john_settings
           (owner_says (str "tg:John")) (str "John") 0 []).
  - reflexivity.
  - reflexivity.
  - discriminate.
  - reflexivity.
  - right. exists 111%Z. split; [reflexivity | discriminate].
Defined.

(** C5 as stated fails for a tag written with a space: "a b" is a key of
    the map, the remainder "a b" equals it, and the handler forwards
    "a b" to every friend. *)
Lemma tag_with_space_counterexample :
  startup space_env = Running space_settings
  /\ after_prefix space_settings (str "tg:a b") = Some (str "a b")
  /\ Obj.own (FRIEND_TAG_MAP space_settings) (toLowerCase (str "a b")) = Some 5%Z
  /\ route space_settings (str "tg:a b") = Command (str "all") (str "a b")
  /\ telegram_sends
       (trace_of (handleWhatsAppMessage flaky space_settings
                    (owner_says (str "tg:a b")) 0 []))
     = [(PeerId 5, str "a b", Resolved)].
Proof. repeat split; reflexivity. Qed.

End Parser.

(* ================================================================== *)
(** ** The configuration block *)

Module ConfigFacts.

Import Config Effects Bridge Terms JSFacts ParseFacts Samples.

Lemma digit_not_ws (c : ascii) : is_digit c = true -> is_ws c = false.
Proof.
  destruct c as [[] [] [] [] [] [] [] []]; vm_compute; congruence.
Qed.

Lemma digit_has_value (c : ascii) :
  is_digit c = true -> exists d, digit_value 10 c = Some d.
Proof.
  destruct c as [[] [] [] [] [] [] [] []]; vm_compute; intros H;
    try discriminate; eexists; reflexivity.
Qed.

Lemma digit_is_no_sign (c : ascii) :
  is_digit c = true ->
  Ascii.eqb c "+" = false /\ Ascii.eqb c "-" = false
  /\ Ascii.eqb c "x" = false /\ Ascii.eqb c "X" = false
  /\ Ascii.eqb c "o" = false /\ Ascii.eqb c "O" = false
  /\ Ascii.eqb c "b" = false /\ Ascii.eqb c "B" = false.
Proof.
  destruct c as [[] [] [] [] [] [] [] []]; vm_compute; intros H;
    try discriminate; repeat split.
Qed.

Lemma parse_digits_total (s : jsstring) :
  forallb is_digit s = true -> forall acc, exists z, parse_digits 10 acc s = Some z.
Proof.
  induction s as [|c s IH]; cbn [forallb parse_digits]; intros H acc.
  - now exists acc.
  - apply andb_true_iff in H as [Hc Hs].
    destruct (digit_has_value _ Hc) as [d ->]. now apply IH.
Qed.

Lemma trimStart_fixed (s : jsstring) :
  match s with [] => True | c :: _ => is_ws c = false end -> trimStart s = s.
Proof. destruct s as [|c r]; cbn [trimStart]; [reflexivity|]. now intros ->. Qed.

Lemma forallb_rev {A : Type} (f : A -> bool) (l : list A) :
  forallb f (rev l) = forallb f l.
Proof.
  induction l as [|a l IH]; [reflexivity|].
  cbn [rev forallb]. rewrite forallb_app, IH. cbn [forallb].
  rewrite andb_true_r. apply andb_comm.
Qed.

(** A string of digits is left alone by [trim]. *)
Lemma trim_digits (s : jsstring) : forallb is_digit s = true -> trim s = s.
Proof.
  intros H. unfold trim, trimEnd.
  assert (Hfix : forall t, forallb is_digit t = true -> trimStart t = t).
  { intros t Ht. apply trimStart_fixed. destruct t as [|c r]; [exact I|].
    cbn [forallb] in Ht. apply andb_true_iff in Ht as [Hc _].
    now apply digit_not_ws. }
  rewrite (Hfix s H), Hfix by (now rewrite forallb_rev).
  apply rev_involutive.
Qed.

(** [BigInt] accepts what the test [/^\d+$/] accepts. *)
Lemma BigInt_digits (s : jsstring) :
  all_digits s = true -> exists z, BigInt s = Some z.
Proof.
  unfold all_digits. destruct s as [|c0 r0]; [discriminate|]. intros H.
  unfold BigInt. rewrite (trim_digits _ H).
  pose proof H as H'. cbn [forallb] in H'. apply andb_true_iff in H' as [Hc0 Hr0].
  destruct (digit_is_no_sign _ Hc0) as (Hp & Hm & _).
  rewrite Hp, Hm.
  assert (Hdec : exists z, parse_number 10 (c0 :: r0) = Some z).
  { unfold parse_number. now apply parse_digits_total. }
  destruct r0 as [|c1 r1]; [exact Hdec|].
  cbn [forallb] in Hr0. apply andb_true_iff in Hr0 as [Hc1 _].
  destruct (digit_is_no_sign _ Hc1) as (_ & _ & Hx & HX & Ho & HO & Hb & HB).
  rewrite Hx, HX, Ho, HO, Hb, HB. cbn [orb].
  now destruct (Ascii.eqb c0 "0").
Qed.

Lemma map_ids_running (l : list jsstring) (zs : list Z) :
  map_ids l = Running zs ->
  map BigInt l = map Some zs /\ forallb all_digits l = true.
Proof.
  revert zs; induction l as [|id l IH]; cbn [map_ids]; intros zs H.
  - injection H as <-. split; reflexivity.
  - unfold convert_id in H.
    destruct (includes ":" id); [discriminate|].
    destruct (all_digits id) eqn:Hd; cbn [negb] in H; [|discriminate].
    destruct (BigInt id) as [z|] eqn:Hz; [|discriminate].
    cbn [Config.bind] in H.
    destruct (map_ids l) as [zs'| |]; cbn [Config.bind] in H; try discriminate.
    injection H as <-. pose proof (IH zs' (eq_refl (Running zs'))) as [Hm Hf].
    cbn [map forallb]. now rewrite Hz, Hm, Hd, Hf.
Qed.


(** What a successful startup tells about the environment. *)
Lemma startup_inv (env : Env) (cfg : Settings) :
  startup env = Running cfg ->
  exists s,
    js_or (env_FRIEND_TELEGRAM_IDS env) (env_FRIEND_TELEGRAM_ID env) = Some s
    /\ map_ids (id_entries s) = Running (FRIEND_TELEGRAM_IDS cfg)
    /\ parse_friend_tags (or_default (env_FRIEND_TAGS env) [])
       = Running (FRIEND_TAG_MAP cfg, FRIEND_ID_TO_TAG cfg)
    /\ FRIEND_TELEGRAM_IDS cfg <> []
    /\ api_id_invalid (env_TELEGRAM_API_ID env) = false
    /\ truthy (env_TELEGRAM_API_HASH env) = true
    /\ truthy (env_TELEGRAM_PHONE env) = true
    /\ session_file_exists env = true
    /\ env_YOUR_WHATSAPP_NUMBER env = Some (YOUR_WHATSAPP_NUMBER cfg)
    /\ MESSAGE_PREFIX cfg = or_default (env_MESSAGE_PREFIX env) (str "tg:").
Proof.
  unfold startup, parse_friend_ids.
  destruct (js_or (env_FRIEND_TELEGRAM_IDS env) (env_FRIEND_TELEGRAM_ID env))
    as [s|]; [|discriminate].
  destruct (map_ids (id_entries s)) as [ids| |] eqn:Hids;
    cbn [Config.bind]; try discriminate.
  destruct (parse_friend_tags _) as [[tm it]| |] eqn:Htags;
    cbn [Config.bind]; try discriminate.
  unfold check.
  destruct (api_id_invalid _) eqn:Hapi; cbn [Config.bind]; [discriminate|].
  destruct (truthy (env_TELEGRAM_API_HASH env)) eqn:Hhash;
    cbn [negb Config.bind]; [|discriminate].
  destruct (truthy (env_TELEGRAM_PHONE env)) eqn:Hphone;
    cbn [negb Config.bind]; [|discriminate].
  destruct (session_file_exists env) eqn:Hsession;
    cbn [negb Config.bind]; [|discriminate].
  destruct ids as [|z ids]; cbn [List.length Nat.eqb Config.bind]; [discriminate|].
  destruct (env_YOUR_WHATSAPP_NUMBER env) as [[|c r]|]; try discriminate.
  destruct (streq (c :: r) (str "34000000000")); [discriminate|].
  intros H. injection H as <-. exists s. cbn.
  repeat split; try reflexivity; easy.
Qed.

(** *** The identifier list *)

Lemma split_nonempty (c : ascii) (s : jsstring) : split c s <> [].
Proof.
  induction s as [|d r IH]; cbn [split]; [discriminate|].
  destruct (Ascii.eqb d c); [discriminate|].
  destruct (split c r); [contradiction|discriminate].
Qed.

Lemma split_app (c : ascii) (a b : jsstring) :
  split c (a ++ c :: b) = split c a ++ split c b.
Proof.
  induction a as [|d a IH]; cbn [app split].
  - now rewrite Ascii.eqb_refl.
  - destruct (Ascii.eqb d c); [now rewrite IH|].
    rewrite IH. pose proof (split_nonempty c a) as Hne.
    destruct (split c a); [contradiction|reflexivity].
Qed.

Lemma split_single (c : ascii) (e : jsstring) :
  includes c e = false -> split c e = [e].
Proof.
  unfold includes.
  induction e as [|d e IH]; cbn [existsb split]; intros H; [reflexivity|].
  apply orb_false_iff in H as [Hd He].
  rewrite Ascii.eqb_sym in Hd. now rewrite Hd, (IH He).
Qed.

Lemma id_entries_app (a b : jsstring) :
  id_entries (a ++ str "," ++ b) = id_entries a ++ id_entries b.
Proof.
  unfold id_entries. change (str "," ++ b) with ("," %char :: b).
  now rewrite split_app, map_app, filter_app.
Qed.

Lemma keep_id_spec (id : jsstring) :
  keep_id id = true <-> id <> [] /\ id <> placeholder_id.
Proof.
  unfold keep_id. destruct id as [|c r].
  - split; [discriminate|]. now intros [H _].
  - rewrite negb_true_iff, streq_neq. split; [|now intros [_ H]].
    intros H. split; [discriminate|exact H].
Qed.

(** The identifiers the handlers see are the kept entries, one for one. *)
Lemma friend_ids_are_the_kept_entries (env : Env) (cfg : Settings) :
  startup env = Running cfg ->
  exists s,
    js_or (env_FRIEND_TELEGRAM_IDS env) (env_FRIEND_TELEGRAM_ID env) = Some s
    /\ map Some (FRIEND_TELEGRAM_IDS cfg) = map BigInt (id_entries s).
Proof.
  intros H. destruct (startup_inv _ H) as (s & Hs & Hids & _).
  exists s. split; [exact Hs|].
  symmetry. now apply map_ids_running.
Qed.

(** C1, as the code has it.  For a registry built from the configuration,
    the selector "all" resolves to [FRIEND_TELEGRAM_IDS] itself: one
    destination per kept entry of the configured list, in the order of the
    list, an identifier listed several times appearing that many times. *)
Theorem all_resolves_to_every_configured_entry (env : Env) (cfg : Settings) :
  startup env = Running cfg ->
  select_targets cfg (str "all")
    = Some (map PeerId (FRIEND_TELEGRAM_IDS cfg), str "all friends")
  /\ exists s,
       js_or (env_FRIEND_TELEGRAM_IDS env) (env_FRIEND_TELEGRAM_ID env) = Some s
       /\ map Some (FRIEND_TELEGRAM_IDS cfg) = map BigInt (id_entries s)
       /\ List.length (FRIEND_TELEGRAM_IDS cfg) = List.length (id_entries s).
Proof.
  intros H. split; [reflexivity|].
  destruct (friend_ids_are_the_kept_entries _ H) as (s & Hs & Hmap).
  exists s. repeat split; try assumption.
  rewrite <- (length_map Some), Hmap. apply length_map.
Qed.

Lemma all_resolves_to_every_configured_entry_witness :
  select_targets twice_settings (str "all")
    = Some (map PeerId (FRIEND_TELEGRAM_IDS twice_settings), str "all friends")
  /\ exists s,
       js_or (env_FRIEND_TELEGRAM_IDS twice_env) (env_FRIEND_TELEGRAM_ID twice_env)
         = Some s
       /\ map Some (FRIEND_TELEGRAM_IDS twice_settings) = map BigInt (id_entries s)
       /\ List.length (FRIEND_TELEGRAM_IDS twice_settings)
          = List.length (id_entries s).
Proof.
  apply (@all_resolves_to_every_configured_entry twice_env twice_settings).
  reflexivity.
Defined.

(** C1 as stated fails: the list "111,111" makes "all" resolve to the same
    destination twice. *)
Lemma duplicate_identifier_counterexample :
  startup twice_env = Running twice_settings
  /\ select_targets twice_settings (str "all")
     = Some ([PeerId 111; PeerId 111], str "all friends")
  /\ ~ NoDup [PeerId 111; PeerId 111].
Proof.
  repeat split.
  intros H. inversion H as [|x l Hin _]. apply Hin. now left.
Qed.

(** C10, as the code has it.  An entry that is empty after trimming, or
    that is the placeholder "000000000", is dropped before the entries are
    checked and converted: alone it yields no entry, between two commas it
    changes neither the entries nor the outcome of the conversion; so no
    kept entry is empty or the placeholder string, and the identifiers of
    a registry are the kept entries converted one for one. *)
Theorem empty_and_placeholder_entries_are_dropped (a e b : jsstring) :
  includes "," e = false ->
  trim e = [] \/ trim e = placeholder_id ->
  id_entries e = []
  /\ id_entries (a ++ str "," ++ e ++ str "," ++ b) = id_entries (a ++ str "," ++ b)
  /\ parse_friend_ids (Some (a ++ str "," ++ e ++ str "," ++ b))
     = parse_friend_ids (Some (a ++ str "," ++ b))
  /\ (forall s id, In id (id_entries s) -> id <> [] /\ id <> placeholder_id)
  /\ (forall env cfg, startup env = Running cfg ->
        exists s,
          js_or (env_FRIEND_TELEGRAM_IDS env) (env_FRIEND_TELEGRAM_ID env) = Some s
          /\ map Some (FRIEND_TELEGRAM_IDS cfg) = map BigInt (id_entries s)).
Proof.
  intros Hcomma Hdrop.
  assert (He : id_entries e = []).
  { unfold id_entries. rewrite (split_single _ _ Hcomma). cbn [map filter].
    now destruct Hdrop as [-> | ->]. }
  assert (Hab : id_entries (a ++ str "," ++ e ++ str "," ++ b)
                = id_entries (a ++ str "," ++ b)).
  { now rewrite !id_entries_app, He. }
  repeat split.
  - exact He.
  - exact Hab.
  - unfold parse_friend_ids. now rewrite Hab.
  - apply filter_In in H as [_ Hk]. now apply keep_id_spec in Hk.
  - apply filter_In in H as [_ Hk]. now apply keep_id_spec in Hk.
  - apply friend_ids_are_the_kept_entries.
Qed.

Lemma empty_and_placeholder_entries_are_dropped_witness :
  id_entries (str " 000000000 ") = []
  /\ id_entries (str "111" ++ str "," ++ str " 000000000 " ++ str "," ++ str "222")
     = id_entries (str "111" ++ str "," ++ str "222")
  /\ parse_friend_ids
       (Some (str "111" ++ str "," ++ str " 000000000 " ++ str "," ++ str "222"))
     = parse_friend_ids (Some (str "111" ++ str "," ++ str "222"))
  /\ (forall s id, In id (id_entries s) -> id <> [] /\ id <> placeholder_id)
  /\ (forall env cfg, startup env = Running cfg ->
        exists s,
          js_or (env_FRIEND_TELEGRAM_IDS env) (env_FRIEND_TELEGRAM_ID env) = Some s
          /\ map Some (FRIEND_TELEGRAM_IDS cfg) = map BigInt (id_entries s)).
Proof.
  apply (@empty_and_placeholder_entries_are_dropped
           (str "111") (str " 000000000 ") (str "222")).
  - reflexivity.
  - right. reflexivity.
Defined.

(** C10 as stated fails for the identifier: the entry "0" is kept, and the
    registry then holds 0, the number the placeholder denotes. *)
Lemma zero_identifier_counterexample :
  startup zero_env = Running zero_settings
  /\ BigInt placeholder_id = Some 0%Z
  /\ In 0%Z (FRIEND_TELEGRAM_IDS zero_settings).
Proof. repeat split. now left. Qed.

(** *** The tag list *)

Lemma own_update {V : Type} (o : Obj.object V) (k : jsstring) (v : V)
    (k' : jsstring) (v' : V) :
  Obj.own (Obj.update o k v) k' = Some v' -> v' = v \/ Obj.own o k' = Some v'.
Proof.
  induction o as [|[k0 v0] o IH]; cbn [Obj.update Obj.own].
  - destruct (streq k k'); [|discriminate]. intros E. injection E as <-. now left.
  - destruct (streq k0 k); cbn [Obj.own].
    + destruct (streq k0 k'); [|now right].
      intros E. injection E as <-. now left.
    + destruct (streq k0 k'); [now right|exact IH].
Qed.

Lemma own_set {V : Type} (o : Obj.object V) (k : jsstring) (v : V)
    (k' : jsstring) (v' : V) :
  Obj.own (Obj.set o k v) k' = Some v' -> v' = v \/ Obj.own o k' = Some v'.
Proof.
  unfold Obj.set. destruct (streq k (str "__proto__")); [now right|].
  apply own_update.
Qed.

Lemma add_pair_values (maps maps' : TagMaps) (pair : jsstring) :
  add_pair maps pair = Running maps' ->
  forall k v, Obj.own (fst maps') k = Some v ->
              Obj.own (fst maps) k = Some v \/ In v (pair_id pair).
Proof.
  unfold add_pair, pair_id.
  destruct (map trim (split ":" pair)) as [|tag [|id rest]];
    try (intros E; injection E as <-; now left).
  destruct (nonempty tag && nonempty id);
    [|intros E; injection E as <-; now left].
  destruct (BigInt id) as [z|]; [|discriminate].
  intros E. injection E as <-. cbn [fst]. intros k v Hown.
  apply own_set in Hown as [-> | Hown]; [right; now left | now left].
Qed.

Lemma add_pairs_values (pairs : list jsstring) :
  forall (maps maps' : TagMaps),
  add_pairs maps pairs = Running maps' ->
  forall k v, Obj.own (fst maps') k = Some v ->
              Obj.own (fst maps) k = Some v \/ In v (flat_map pair_id pairs).
Proof.
  induction pairs as [|p pairs IH]; cbn [add_pairs flat_map]; intros maps maps' H k v Hown.
  - injection H as <-. now left.
  - destruct (add_pair maps p) as [m1| |] eqn:Hp; cbn [Config.bind] in H;
      try discriminate.
    destruct (IH _ _ H _ _ Hown) as [Hm1 | Hin].
    + destruct (@add_pair_values maps m1 p Hp k v Hm1) as [H0 | Hin]; [now left|].
      right. apply in_or_app. now left.
    + right. apply in_or_app. now right.
Qed.

(** C3, as the code has it.  Every identifier that is a value of
    [FRIEND_TAG_MAP] is the identifier of an entry of the tag list; it is
    in [FRIEND_TELEGRAM_IDS] when the identifier list names the identifiers
    of the tag list too, which the script does not check. *)
Theorem tag_identifiers_come_from_the_tag_list
    (env : Env) (cfg : Settings) (tag : jsstring) (id : Z) :
  startup env = Running cfg ->
  Obj.own (FRIEND_TAG_MAP cfg) tag = Some id ->
  In id (declared_tag_ids (or_default (env_FRIEND_TAGS env) []))
  /\ ((forall z, In z (declared_tag_ids (or_default (env_FRIEND_TAGS env) [])) ->
                 In z (FRIEND_TELEGRAM_IDS cfg)) ->
      In id (FRIEND_TELEGRAM_IDS cfg)).
Proof.
  intros H Hown.
  destruct (startup_inv _ H) as (s & _ & _ & Htags & _).
  assert (Hin : In id (declared_tag_ids (or_default (env_FRIEND_TAGS env) []))).
  { unfold parse_friend_tags in Htags. unfold declared_tag_ids.
    destruct (nonempty (or_default (env_FRIEND_TAGS env) [])).
    - destruct (@add_pairs_values _ _ _ Htags tag id Hown) as [Hempty | Hin];
        [discriminate | exact Hin].
    - injection Htags as E1 _. rewrite <- E1 in Hown. discriminate. }
  split; [exact Hin|]. intros Hall. now apply Hall.
Qed.

Lemma tag_identifiers_come_from_the_tag_list_witness :
  In 111%Z (declared_tag_ids (or_default (env_FRIEND_TAGS john_env) []))
  /\ ((forall z, In z (declared_tag_ids (or_default (env_FRIEND_TAGS john_env) [])) ->
                 In z (FRIEND_TELEGRAM_IDS john_settings)) ->
      In 111%Z (FRIEND_TELEGRAM_IDS john_settings)).
Proof.
  apply (@tag_identifiers_come_from_the_tag_list john_env john_settings (str "john")).
  - reflexivity.
  - reflexivity.
Defined.

(** C3 as stated fails: the tag list may name an identifier that the
    identifier list does not have. *)
Lemma stray_tag_counterexample :
  startup stray_env = Running stray_settings
  /\ Obj.own (FRIEND_TAG_MAP stray_settings) (str "john") = Some 111%Z
  /\ FRIEND_TELEGRAM_IDS stray_settings = [222%Z]
  /\ ~ In 111%Z (FRIEND_TELEGRAM_IDS stray_settings).
Proof.
  repeat split. intros [H | []]. discriminate.
Qed.

(** *** Failing fast *)







End ConfigFacts.

(* ================================================================== *)
(** ** Replies to the owner *)

Module Replies.

Import Config Effects Bridge Trace Terms JSFacts LoopFacts ForwardFacts ConfigFacts Samples.


Section Answer.

Variable W : Type.
Variable T : Transport W.
Variable cfg : Settings.






End Answer.




End Replies.

(* ================================================================== *)
(** ** The inbound filter (lines 415-424) *)

Module Inbound.

Import Config Effects Bridge Trace Terms LoopFacts Samples.

Lemma isFriend_spec (cfg : Settings) (senderId : Z) :
  isFriend cfg senderId = true <-> In senderId (FRIEND_TELEGRAM_IDS cfg).
Proof.
  unfold isFriend. rewrite existsb_exists. split.
  - intros (id & Hin & Heq). apply Z.eqb_eq in Heq. now subst.
  - intros Hin. exists senderId. split; [exact Hin | apply Z.eqb_refl].
Qed.

(** C8.  The filter lets a sender through exactly when the sender's
    identifier is an element of [FRIEND_TELEGRAM_IDS], the comparison being
    equality of integers of any size.  A message from any other identifier
    leaves the world and the trace as they were: no call of
    [whatsappClient.sendMessage], nor of anything else.  A text message
    from a listed identifier whose sender can be fetched is sent to the
    owner's WhatsApp address once, the text unchanged after the header. *)
Theorem only_listed_senders_are_forwarded
    (W : Type) (T : Transport W) (cfg : Settings) (senderId : Z)
    (messageText : jsstring) (sender : Sender) (w w1 : W) (tr : list Event) :
  (isFriend cfg senderId = true <-> In senderId (FRIEND_TELEGRAM_IDS cfg))
  /\ (~ In senderId (FRIEND_TELEGRAM_IDS cfg) ->
      onNewMessage T cfg (incoming messageText senderId) w tr = (Normal tt, w, tr))
  /\ (In senderId (FRIEND_TELEGRAM_IDS cfg) ->
      messageText <> [] ->
      message_getSender T w = (inl (Some sender), w1) ->
      whatsapp_sends (trace_of (onNewMessage T cfg (incoming messageText senderId) w tr))
      = whatsapp_sends tr
        ++ [(YOUR_WHATSAPP_NUMBER cfg ++ str "@c.us",
             message_header cfg (sender_name sender) senderId ++ nl ++ messageText,
             fst (whatsapp_sendMessage T w1
                    (YOUR_WHATSAPP_NUMBER cfg ++ str "@c.us")
                    (message_header cfg (sender_name sender) senderId
                       ++ nl ++ messageText)))]).
Proof.
  split; [apply isFriend_spec|]. split.
  - intros Hnot.
    assert (Hf : isFriend cfg senderId = false).
    { destruct (isFriend cfg senderId) eqn:E; [|reflexivity].
      apply isFriend_spec in E. contradiction. }
    unfold onNewMessage, try_catch, incoming. cbn [message text Bridge.senderId].
    destruct messageText as [|c r]; [reflexivity|].
    rewrite Hf. reflexivity.
  - intros Hin Hne Hget.
    apply isFriend_spec in Hin.
    unfold onNewMessage, try_catch, incoming, trace_of.
    cbn [message text Bridge.senderId].
    destruct messageText as [|c r]; [contradiction|].
    rewrite Hin. cbn [negb].
    unfold forward_to_whatsapp, Effects.bind at 1, await_getSender.
    rewrite Hget.
    cbv [Effects.bind console_log await_whatsapp_send].
    destruct (whatsapp_sendMessage T w1 _ _) as [r2 w2].
    destruct r2 as [|m]; cbn [settle ret throw fst snd console_error];
      unfold ret, throw, console_error; cbn [snd];
      rewrite !whatsapp_sends_app; cbn [whatsapp_sends flat_map app];
      now rewrite !app_nil_r.
Qed.

Lemma only_listed_senders_are_forwarded_witness :
  (isFriend john_settings 111 = true <-> In 111%Z (FRIEND_TELEGRAM_IDS john_settings))
  /\ (~ In 111%Z (FRIEND_TELEGRAM_IDS john_settings) ->
      onNewMessage flaky john_settings (incoming (str "yo") 111) 0 []
      = (Normal tt, 0, []))
  /\ whatsapp_sends (trace_of (onNewMessage flaky john_settings
                                 (incoming (str "yo") 111) 0 []))
     = whatsapp_sends []
       ++ [(YOUR_WHATSAPP_NUMBER john_settings ++ str "@c.us",
            message_header john_settings
              (sender_name (mkSender (Some (str "Ann")) None)) 111
              ++ nl ++ str "yo",
            fst (whatsapp_sendMessage flaky 1
                   (YOUR_WHATSAPP_NUMBER john_settings ++ str "@c.us")
                   (message_header john_settings
                      (sender_name (mkSender (Some (str "Ann")) None)) 111
                      ++ nl ++ str "yo")))].
Proof.
  destruct (@only_listed_senders_are_forwarded nat flaky john_settings 111
              (str "yo") (mkSender (Some (str "Ann")) None) 0 1 [])
    as [H1 [H2 H3]].
  split; [exact H1|]. split; [exact H2|].
  apply H3; [now left | discriminate | reflexivity].
Defined.

(** Identifiers beyond the range of doubles are told apart, and a stranger
    causes no call at all. *)
Example large_identifiers_are_compared_exactly :
  isFriend (mkSettings [] [] [9007199254740993%Z] [] []) 9007199254740992 = false
  /\ isFriend (mkSettings [] [] [9007199254740993%Z] [] []) 9007199254740993 = true
  /\ onNewMessage flaky john_settings (incoming (str "yo") 1110) 0 []
     = (Normal tt, 0, []).
Proof. repeat split. Qed.

End Inbound.

(* ================================================================== *)
(** ** Scenarios *)

Module Scenarios.

Import Config Effects Bridge Trace Terms Samples.

Example trim_strips_both_ends : trim (str "  john  ") = str "john".
Proof. reflexivity. Qed.

Example split_keeps_empty_entries :
  split "," (str "1,,2") = [str "1"; str ""; str "2"].
Proof. reflexivity. Qed.

Example BigInt_reads_leading_zeros : BigInt (str "007") = Some 7%Z.
Proof. reflexivity. Qed.

Example BigInt_rejects_letters : BigInt (str "hn") = None.
Proof. reflexivity. Qed.

Example parseInt_reads_a_prefix : parseInt (str " 12abc") = Some 12%Z.
Proof. reflexivity. Qed.

Example keys_list_indices_first :
  Obj.keys [(str "john", 1%Z); (str "7", 2%Z); (str "amy", 3%Z)]
  = [str "7"; str "john"; str "amy"].
Proof. reflexivity. Qed.

Example tagged_command :
  route john_settings (str "tg:john Hello there")
    = Command (str "john") (str "Hello there")
  /\ select_targets john_settings (str "john")
     = Some ([PeerId 111], str "friend " ++ dquote ++ str "john" ++ dquote).
Proof. split; reflexivity. Qed.

Example untagged_command :
  route john_settings (str "tg: Hi everyone") = Command (str "all") (str "Hi everyone").
Proof. reflexivity. Qed.

Example bare_tag : route john_settings (str "tg:john") = NoMessageAfterTag.
Proof. reflexivity. Qed.

Example bare_prefix : route john_settings (str "tg:") = EmptyMessage.
Proof. reflexivity. Qed.

(** Three destinations, the second failing: three sends in order, and the
    two summaries. *)
Example second_of_three_fails :
  let tr := trace_of (handleWhatsAppMessage flaky three_settings
                        (owner_says (str "tg:all hi")) 0 []) in
  telegram_sends tr
    = [(PeerId 111, str "hi", Resolved);
       (PeerId 222, str "hi", Rejected (str "PEER_ID_INVALID"));
       (PeerId 333, str "hi", Resolved)]
  /\ map fst (replies tr) = [sent_text (str "all") 2; failed_text 1].
Proof. split; reflexivity. Qed.

(** A tag whose identifier is zero is not taken for a tag: the bare tag is
    forwarded to every friend as a message. *)
Example zero_identifier_tag_is_forwarded :
  startup zero_tag_env = Running zero_tag_settings
  /\ Obj.own (FRIEND_TAG_MAP zero_tag_settings) (str "nobody") = Some 0%Z
  /\ route zero_tag_settings (str "tg:nobody") = Command (str "all") (str "nobody")
  /\ telegram_sends (trace_of (handleWhatsAppMessage flaky zero_tag_settings
                                 (owner_says (str "tg:nobody")) 0 []))
     = [(PeerId 111, str "nobody", Resolved)].
Proof. repeat split; reflexivity. Qed.

End Scenarios.

(* ================================================================== *)
(** * Further properties of the bridge script *)

(** ** Trimmed text *)

Module TrimFacts.

Import Notions JSFacts ParseFacts ConfigFacts.

Lemma trimStart_has_text (s : jsstring) : has_text (trimStart s) = has_text s.
Proof.
  unfold has_text. induction s as [|c s IH]; [reflexivity|].
  cbn [trimStart]. destruct (is_ws c) eqn:Hc; [|reflexivity].
  cbn [existsb]. now rewrite Hc, IH.
Qed.

Lemma has_text_rev (s : jsstring) : has_text (rev s) = has_text s.
Proof.
  unfold has_text. induction s as [|c s IH]; [reflexivity|].
  cbn [rev existsb]. rewrite existsb_app, IH. cbn [existsb].
  rewrite orb_false_r. apply orb_comm.
Qed.

(** [trim] leaves something exactly when there is a character that is not
    white space. *)
Lemma trim_has_text (s : jsstring) : has_text (trim s) = has_text s.
Proof.
  unfold trim, trimEnd.
  now rewrite has_text_rev, trimStart_has_text, has_text_rev, trimStart_has_text.
Qed.

Lemma has_text_nonempty (s : jsstring) : has_text s = true -> s <> [].
Proof. now destruct s. Qed.

Lemma trim_last (s l : jsstring) (c : ascii) :
  trim s = l ++ [c] -> is_ws c = false.
Proof.
  unfold trim, trimEnd. intros E.
  apply (f_equal (@rev ascii)) in E.
  rewrite rev_involutive, rev_app_distr in E. cbn [rev app] in E.
  exact (trimStart_head _ E).
Qed.

Lemma nonempty_last {A : Type} (s : list A) :
  s <> [] -> exists l c, s = l ++ [c].
Proof.
  intros H. destruct (exists_last H) as (l & c & E). now exists l, c.
Qed.

(** Trimming twice is trimming once. *)
Lemma trim_idempotent (s : jsstring) : trim (trim s) = trim s.
Proof.
  destruct (trim s) as [|c l] eqn:E; [reflexivity|].
  assert (Hne : c :: l <> []) by discriminate.
  destruct (nonempty_last Hne) as (l' & d & E').
  assert (Hc : is_ws c = false) by exact (@trim_head s c l E).
  assert (Hd : is_ws d = false).
  { apply (@trim_last s l' d). now rewrite E. }
  unfold trim, trimEnd. cbn [trimStart]. rewrite Hc.
  rewrite E', rev_app_distr. cbn [rev app trimStart]. rewrite Hd.
  cbn [rev]. now rewrite rev_involutive.
Qed.

End TrimFacts.

(** ** Routing (lines 272-328) *)

Module RoutingFacts.

Import Notions Config Effects Bridge Trace Terms JSFacts ParseFacts Parser TrimFacts Samples.

Lemma cut_at_space (s : jsstring) :
  includes " " s = true ->
  substring_from (Z.to_nat (indexOf " " s + 1)) s = after_space s
  /\ s = before_space s ++ " "%char :: after_space s.
Proof.
  unfold includes, substring_from.
  induction s as [|d r IH]; cbn [existsb indexOf before_space after_space];
    intros H; [discriminate|].
  rewrite (Ascii.eqb_sym " " d) in H.
  destruct (Ascii.eqb d " ") eqn:Hd.
  - apply Ascii.eqb_eq in Hd. subst d. split; reflexivity.
  - cbn [orb] in H. destruct (IH H) as [Hs He].
    assert (Hnn : (0 <= indexOf " " r)%Z).
    { now apply indexOf_present. }
    destruct (indexOf " " r <? 0)%Z eqn:E; [apply Z.ltb_lt in E; lia|].
    replace (Z.to_nat (indexOf " " r + 1 + 1))
      with (S (Z.to_nat (indexOf " " r + 1))) by lia.
    cbn [skipn app]. split; [exact Hs | now rewrite <- He].
Qed.

(** After the first space of a trimmed text there is still text. *)
Lemma text_after_space (x : jsstring) :
  includes " " (trim x) = true -> has_text (after_space (trim x)) = true.
Proof.
  intros Hin. destruct (cut_at_space _ Hin) as [_ Hcut].
  assert (Hne : trim x <> []) by (intros E; rewrite E in Hin; discriminate).
  destruct (nonempty_last Hne) as (l & d & El).
  assert (Hd : is_ws d = false) by exact (@trim_last x l d El).
  destruct (after_space (trim x)) as [|a rest] eqn:Ea.
  - exfalso. rewrite El in Hcut.
    apply app_inj_tail in Hcut as [_ ->]. discriminate.
  - assert (Hr : a :: rest <> []) by discriminate.
    destruct (nonempty_last Hr) as (l2 & d2 & E2).
    rewrite E2 in Hcut. rewrite El in Hcut.
    change (before_space (l ++ [d]) ++ " "%char :: l2 ++ [d2])
      with (before_space (l ++ [d]) ++ (" "%char :: l2) ++ [d2]) in Hcut.
    rewrite app_assoc in Hcut. apply app_inj_tail in Hcut as [_ ->].
    rewrite E2. unfold has_text. rewrite existsb_app. cbn [existsb].
    rewrite Hd. cbn. now rewrite orb_true_r.
Qed.

(** What [route] answers for a command with text, in terms of the first
    word of the remainder. *)
Lemma route_with_text (cfg : Settings) (body r : jsstring) :
  after_prefix cfg body = Some r -> r <> [] ->
  route cfg body =
    if includes " " r then
      if streq (toLowerCase (before_space r)) (str "all")
         || is_tag cfg (toLowerCase (before_space r))
      then Command (toLowerCase (before_space r)) (trim (after_space r))
      else Command (str "all") r
    else if streq (toLowerCase (before_space r)) (str "all")
            || is_tag cfg (toLowerCase (before_space r))
         then NoMessageAfterTag else Command (str "all") r.
Proof.
  intros Hafter Hne. unfold route. rewrite Hafter.
  destruct r as [|c r']; [contradiction|].
  destruct (after_prefix_inv _ _ Hafter) as [_ Hr].
  rewrite Hr, parse_tag_trimmed, <- Hr.
  destruct (includes " " (c :: r')) eqn:Hin; [|reflexivity].
  now destruct (cut_at_space _ Hin) as [-> _].
Qed.

Lemma route_command_inv (cfg : Settings) (body t p : jsstring) :
  route cfg body = Command t p ->
  exists r, after_prefix cfg body = Some r /\ r <> [].
Proof.
  unfold route. destruct (after_prefix cfg body) as [[|c r]|]; try discriminate.
  intros _. exists (c :: r). split; [reflexivity | discriminate].
Qed.

(** The two ways [route] arrives at a command. *)
Lemma route_cases (cfg : Settings) (body t p : jsstring) :
  route cfg body = Command t p ->
  exists r,
    after_prefix cfg body = Some r /\ r <> [] /\ trim r = r
    /\ ((includes " " r = true
         /\ t = toLowerCase (before_space r)
         /\ streq t (str "all") || is_tag cfg t = true
         /\ p = trim (after_space r)
         /\ has_text (after_space r) = true)
        \/ (t = str "all" /\ p = r)).
Proof.
  intros Hroute.
  destruct (@route_command_inv cfg body t p Hroute) as (r & Hafter & Hne).
  destruct (@after_prefix_inv cfg body r Hafter) as [_ Hr].
  rewrite (@route_with_text cfg body r Hafter Hne) in Hroute.
  exists r. split; [exact Hafter|]. split; [exact Hne|].
  split; [rewrite Hr; apply trim_idempotent|].
  destruct (includes " " r) eqn:Hin.
  - destruct (streq _ _ || is_tag _ _) eqn:Hk.
    + injection Hroute as <- <-. left. repeat split; try assumption.
      rewrite Hr. apply text_after_space. now rewrite <- Hr.
    + injection Hroute as <- <-. now right.
  - destruct (streq _ _ || is_tag _ _); [discriminate|].
    injection Hroute as <- <-. now right.
Qed.

Lemma route_payload_nonempty (cfg : Settings) (body t p : jsstring) :
  route cfg body = Command t p -> p <> [].
Proof.
  intros Hroute.
  destruct (@route_cases cfg body t p Hroute)
    as (r & _ & Hne & _ & [(_ & _ & _ & -> & Htext) | (_ & ->)]);
    [|exact Hne].
  apply has_text_nonempty. now rewrite trim_has_text.
Qed.

Lemma select_known (cfg : Settings) (k : jsstring) :
  streq k (str "all") || is_tag cfg k = true ->
  exists targets desc,
    select_targets cfg k = Some (targets, desc)
    /\ (FRIEND_TELEGRAM_IDS cfg <> [] -> targets <> []).
Proof.
  intros Hk. unfold select_targets.
  destruct (streq k (str "all")) eqn:Hs.
  - eexists _, _. split; [reflexivity|].
    intros H. destruct (FRIEND_TELEGRAM_IDS cfg); [contradiction|discriminate].
  - cbn [orb] in Hk. unfold is_tag in Hk.
    destruct (Obj.get (FRIEND_TAG_MAP cfg) k) as [z|n|]; cbn [tag_truthy] in Hk.
    + apply negb_true_iff in Hk. rewrite Hk.
      eexists _, _. split; [reflexivity | discriminate].
    + eexists _, _. split; [reflexivity | discriminate].
    + discriminate.
Qed.

Lemma route_target_selected (cfg : Settings) (body t p : jsstring) :
  route cfg body = Command t p ->
  exists targets desc, select_targets cfg t = Some (targets, desc).
Proof.
  intros Hroute.
  destruct (@route_cases cfg body t p Hroute)
    as (r & _ & _ & _ & [(_ & _ & Hk & _) | (-> & _)]).
  - destruct (@select_known cfg t Hk) as (targets & desc & Hsel & _).
    now exists targets, desc.
  - eexists _, _. reflexivity.
Qed.

(** X9.  The payload of a routed command is never empty and carries no white
    space at either end: the check of line 310 and its reply are never
    reached. *)
Theorem routed_payload_is_trimmed_text (cfg : Settings) (body t p : jsstring) :
  route cfg body = Command t p -> p <> [] /\ trim p = p.
Proof.
  intros Hroute.
  destruct (@route_cases cfg body t p Hroute)
    as (r & _ & Hne & Htrim & [(_ & _ & _ & -> & Htext) | (_ & ->)]).
  - split; [|apply trim_idempotent].
    apply has_text_nonempty. now rewrite trim_has_text.
  - now split.
Qed.

Lemma routed_payload_is_trimmed_text_witness :
  str "Hello there" <> [] /\ trim (str "Hello there") = str "Hello there".
Proof.
  apply (@routed_payload_is_trimmed_text john_settings
           (str "tg:john   Hello there  ") (str "john")).
  reflexivity.
Defined.

(** X10.  The target of a routed command is "all" or a name [FRIEND_TAG_MAP]
    answers for, so the selection of lines 319-324 always finds targets and
    the "Unknown tag" branch of lines 325-327 is never taken; the targets
    are not empty when the identifier list is not. *)
Theorem routed_target_is_always_known (cfg : Settings) (body t p : jsstring) :
  route cfg body = Command t p ->
  (t = str "all" \/ is_tag cfg t = true)
  /\ exists targets desc,
       select_targets cfg t = Some (targets, desc)
       /\ (FRIEND_TELEGRAM_IDS cfg <> [] -> targets <> []).
Proof.
  intros Hroute.
  destruct (@route_cases cfg body t p Hroute)
    as (r & _ & _ & _ & [(_ & _ & Hk & _) | (-> & _)]).
  - split; [|now apply select_known].
    destruct (streq t (str "all")) eqn:Hs.
    + left. now apply streq_eq.
    + right. exact Hk.
  - split; [now left|]. now apply select_known.
Qed.

Lemma routed_target_is_always_known_witness :
  (str "john" = str "all" \/ is_tag john_settings (str "john") = true)
  /\ exists targets desc,
       select_targets john_settings (str "john") = Some (targets, desc)
       /\ (FRIEND_TELEGRAM_IDS john_settings <> [] -> targets <> []).
Proof.
  apply (@routed_target_is_always_known john_settings
           (str "tg:JOHN Hello") (str "john") (str "Hello")).
  reflexivity.
Defined.

(** X11.  A first word that is a tag with a non-zero identifier, in any casing,
    selects that friend alone; the payload is the trimmed text after the
    first space, the selector left out. *)
Theorem first_word_selects_the_friend
    (cfg : Settings) (body r : jsstring) (z : Z) :
  after_prefix cfg body = Some r ->
  includes " " r = true ->
  Obj.own (FRIEND_TAG_MAP cfg) (toLowerCase (before_space r)) = Some z ->
  z <> 0%Z ->
  toLowerCase (before_space r) <> str "all" ->
  route cfg body
    = Command (toLowerCase (before_space r)) (trim (after_space r))
  /\ select_targets cfg (toLowerCase (before_space r))
     = Some ([PeerId z],
             str "friend " ++ dquote ++ toLowerCase (before_space r) ++ dquote).
Proof.
  intros Hafter Hin Hown Hz Hall.
  assert (Hne : r <> []) by (intros ->; discriminate).
  pose proof (@route_with_text cfg body r Hafter Hne) as Hroute.
  rewrite Hin in Hroute.
  assert (Htag : is_tag cfg (toLowerCase (before_space r)) = true).
  { unfold is_tag, Obj.get. rewrite Hown. cbn [tag_truthy].
    apply negb_true_iff. now apply Z.eqb_neq. }
  rewrite Htag, orb_true_r in Hroute. split; [exact Hroute|].
  unfold select_targets, Obj.get. rewrite Hown.
  apply streq_neq in Hall. rewrite Hall.
  apply Z.eqb_neq in Hz. now rewrite Hz.
Qed.

Lemma first_word_selects_the_friend_witness :
  route john_settings (str "tg:JOHN Hello there")
    = Command (toLowerCase (before_space (str "JOHN Hello there")))
        (trim (after_space (str "JOHN Hello there")))
  /\ select_targets john_settings
       (toLowerCase (before_space (str "JOHN Hello there")))
     = Some ([PeerId 111],
             str "friend " ++ dquote
               ++ toLowerCase (before_space (str "JOHN Hello there")) ++ dquote).
Proof.
  apply (@first_word_selects_the_friend john_settings
           (str "tg:JOHN Hello there") (str "JOHN Hello there") 111);
    [reflexivity | reflexivity | reflexivity | discriminate | discriminate].
Defined.

Example tag_in_capitals_selects_john :
  route john_settings (str "tg:JOHN Hello there")
    = Command (str "john") (str "Hello there").
Proof. reflexivity. Qed.

End RoutingFacts.

(** ** What [handleWhatsAppMessage] does to the two transports *)

Module HandlerFacts.

Import Notions Config Effects Bridge Trace Terms JSFacts LoopFacts ForwardFacts.
Import RoutingFacts Samples.

Lemma whatsapp_sends_cons (e : Event) (tr : list Event) :
  whatsapp_sends (e :: tr)
  = match e with WhatsAppSend c t r => (c, t, r) :: whatsapp_sends tr
    | _ => whatsapp_sends tr end.
Proof. destruct e; reflexivity. Qed.

Lemma In_firstn {A : Type} (x : A) (k : nat) (l : list A) :
  In x (firstn k l) -> In x l.
Proof.
  revert l; induction k as [|k IH]; intros [|a l]; cbn [firstn]; try contradiction.
  intros [-> | H]; [now left | right; now apply IH].
Qed.

Lemma summary_replies (cfg : Settings) (tag : jsstring) (sc ec k : nat) :
  Forall (bridge_reply cfg) (firstn k (summary tag sc ec)).
Proof.
  apply Forall_forall. intros t Hin. apply In_firstn in Hin.
  unfold summary in Hin. apply in_app_or in Hin as [Hin | Hin].
  - destruct (0 <? sc)%nat; [|contradiction]. destruct Hin as [<- | []].
    right; right; right; left. now exists tag, sc.
  - destruct (0 <? ec)%nat; [|contradiction]. destruct Hin as [<- | []].
    right; right; right; right. now exists ec.
Qed.

Section Outbound.

Variable W : Type.
Variable T : Transport W.
Variable cfg : Settings.

Lemma one_reply (text : jsstring) (w : W) (tr : list Event) :
  exists r w',
    await_reply T text w tr
    = (match r with Resolved => Normal tt | Rejected m => Throw m end,
       w', tr ++ [WhatsAppReply text r]).
Proof.
  unfold await_reply. destruct (msg_reply T w text) as [r w'].
  exists r, w'. now destruct r.
Qed.

Lemma handle_body_effects (msg : Message) (w : W) (tr : list Event) :
  exists c w' evs,
    handle_body T cfg msg w tr = (c, w', tr ++ evs) /\ outbound cfg msg evs.
Proof.
  assert (Hquiet : forall text : jsstring,
             bridge_reply cfg text ->
             (forall t p, route cfg (body msg) <> Command t p) ->
             exists c w' evs,
               await_reply T text w tr = (c, w', tr ++ evs)
               /\ outbound cfg msg evs).
  { intros text Hb Hno. destruct (one_reply text w tr) as (r & w' & ->).
    eexists _, w', _. split; [reflexivity|].
    unfold outbound. cbn. split; [reflexivity|].
    split; [constructor; [exact Hb | constructor]|].
    split; [reflexivity|].
    intros t p targets d _ Hroute. now destruct (Hno t p). }
  assert (Hnil : from_owner cfg msg = false
                 \/ (forall t p, route cfg (body msg) <> Command t p) ->
                 outbound cfg msg []).
  { intros Hno. unfold outbound. cbn. split; [reflexivity|].
    split; [constructor|]. split; [reflexivity|].
    intros t p targets d Howner Hroute.
    destruct Hno as [Hf | Hno]; [congruence | now destruct (Hno t p)]. }
  unfold handle_body.
  destruct (from_owner cfg msg) eqn:Howner; cbn [negb].
  2:{ exists (Normal tt), w, []. rewrite app_nil_r. split; [reflexivity|].
      apply Hnil. now left. }
  destruct (route cfg (body msg)) as [| | |t p] eqn:Hroute.
  - exists (Normal tt), w, []. rewrite app_nil_r. split; [reflexivity|].
    apply Hnil. right. discriminate.
  - apply Hquiet; [now left | discriminate].
  - apply Hquiet; [right; now left | discriminate].
  - pose proof (@route_payload_nonempty _ _ _ _ Hroute) as Hp.
    destruct (@route_target_selected _ _ _ _ Hroute)
      as (targets & desc & Hsel).
    destruct p as [|c0 p0]; [contradiction|]. rewrite Hsel.
    destruct (forward_command_spec T cfg t (c0 :: p0) targets desc w tr)
      as (c & w' & evs & Hrun & Hs & Hw & (k & Hk) & _).
    exists c, w', evs. split; [exact Hrun|].
    unfold outbound. repeat split.
    + exact Hw.
    + rewrite Hk. apply summary_replies.
    + intros [Hf | Hno]; [congruence | now destruct (Hno t (c0 :: p0))].
    + intros t' p' targets' d' _ Hr' Hsel'.
      rewrite Hroute in Hr'. injection Hr' as <- <-.
      rewrite Hsel in Hsel'. now injection Hsel' as <- _.
Qed.

(** The handler proper: the [catch] adds an error line and the error reply. *)
Lemma handler_effects (msg : Message) (w : W) (tr : list Event) :
  exists w' evs,
    handleWhatsAppMessage T cfg msg w tr = (Normal tt, w', tr ++ evs)
    /\ outbound cfg msg evs.
Proof.
  destruct (handle_body_effects msg w tr)
    as (c & w' & evs & Hrun & Hw & Hr & Hquiet & Hsend).
  unfold handleWhatsAppMessage, try_catch at 1. rewrite Hrun.
  destruct c as [[]|m].
  - exists w', evs. split; [reflexivity|]. now repeat split.
  - unfold Effects.bind, console_error, try_catch.
    destruct (one_reply error_text w' ((tr ++ evs) ++ [ConsoleError
                (cross_mark ++ str " Error in WhatsApp " ++ arrow
                   ++ str " Telegram forwarding: " ++ m)]))
      as (r & w2 & ->).
    assert (Hout : forall extra,
               telegram_sends extra = [] -> whatsapp_sends extra = [] ->
               map fst (replies extra) = [error_text] ->
               outbound cfg msg (evs ++ extra)).
    { intros extra Ht Hwx Hrx. unfold outbound.
      rewrite whatsapp_sends_app, replies_app, telegram_sends_app, map_app,
        Hw, Ht, Hwx, Hrx, !app_nil_r.
      repeat split; try assumption.
      apply Forall_app. split; [exact Hr|].
      constructor; [right; right; now left | constructor]. }
    destruct r as [|m2].
    + eexists w2, (evs ++ [_; _]). rewrite <- !app_assoc.
      split; [reflexivity | now apply Hout].
    + eexists w2, (evs ++ [_; _; _]). rewrite <- !app_assoc.
      split; [reflexivity | now apply Hout].
Qed.

End Outbound.

(** Neither the bare "Message is empty." of line 311 nor the "Unknown
    tag" text of line 326 is among the replies the handler can send. *)
Lemma bridge_reply_excludes (cfg : Settings) (t : jsstring) :
  bridge_reply cfg t ->
  t <> empty_text /\ forall tag, t <> unknown_tag_text cfg tag.
Proof.
  intros [-> | [-> | [-> | [(tag & n & ->) | (n & ->)]]]];
    (split; [|intros tag']); intros E;
    apply (f_equal (firstn 30)) in E;
    unfold usage_text, no_message_text, error_text, sent_text, failed_text,
      empty_text, unknown_tag_text, warning_sign, check_mark, cross_mark in E;
    cbn in E; discriminate E.
Qed.

(** X12.  The handler never rejects: whatever the transports do, it completes,
    having only added to the trace; and it never calls
    [whatsappClient.sendMessage]. *)
Theorem whatsapp_handler_always_completes
    (W : Type) (T : Transport W) (cfg : Settings) (msg : Message)
    (w : W) (tr : list Event) :
  exists w' evs,
    handleWhatsAppMessage T cfg msg w tr = (Normal tt, w', tr ++ evs)
    /\ whatsapp_sends evs = [].
Proof.
  destruct (handler_effects T cfg msg w tr) as (w' & evs & Hrun & Hw & _).
  now exists w', evs.
Qed.

(** X13.  Every reply of the handler is the usage help, the "No message provided
    after tag." diagnostic, a success summary, a failure notice or the
    error reply of the [catch]; the bare "Message is empty." and the
    "Unknown tag" replies are never sent. *)
Theorem replies_are_of_five_kinds
    (W : Type) (T : Transport W) (cfg : Settings) (msg : Message)
    (w : W) (tr : list Event) :
  exists evs,
    trace_of (handleWhatsAppMessage T cfg msg w tr) = tr ++ evs
    /\ forall t, In t (map fst (replies evs)) ->
         bridge_reply cfg t
         /\ t <> empty_text
         /\ forall tag, t <> unknown_tag_text cfg tag.
Proof.
  destruct (handler_effects T cfg msg w tr) as (w' & evs & Hrun & _ & Hr & _).
  exists evs. rewrite Hrun. split; [reflexivity|].
  intros t Hin. rewrite Forall_forall in Hr. specialize (Hr t Hin).
  split; [exact Hr | now apply bridge_reply_excludes].
Qed.



(** X15.  Telegram is contacted for a routed command of the owner only: a
    message of somebody else, a message without the prefix, the bare
    prefix and the bare selector cause no call of
    [telegramClient.sendMessage]. *)
Theorem no_command_no_telegram_send
    (W : Type) (T : Transport W) (cfg : Settings) (msg : Message)
    (w : W) (tr : list Event) :
  from_owner cfg msg = false
  \/ (forall t p, route cfg (body msg) <> Command t p) ->
  exists evs,
    trace_of (handleWhatsAppMessage T cfg msg w tr) = tr ++ evs
    /\ telegram_sends evs = [].
Proof.
  intros Hno.
  destruct (handler_effects T cfg msg w tr) as (w' & evs & Hrun & _ & _ & Hq & _).
  exists evs. rewrite Hrun. split; [reflexivity | now apply Hq].
Qed.

Lemma no_command_no_telegram_send_witness :
  exists evs,
    trace_of (handleWhatsAppMessage flaky john_settings
                (owner_says (str "tg:john")) 0 []) = [] ++ evs
    /\ telegram_sends evs = [].
Proof.
  apply (@no_command_no_telegram_send nat flaky john_settings
           (owner_says (str "tg:john")) 0 []).
  right. intros t p. discriminate.
Defined.

(** X7.  A message that is not the owner's own ([fromMe] false and another
    sender) is dropped before anything else: no reply, no send, no console
    line, whatever its text. *)
Theorem strangers_are_ignored
    (W : Type) (T : Transport W) (cfg : Settings) (msg : Message)
    (w : W) (tr : list Event) :
  fromMe msg = false ->
  remove_first (str "@c.us") (from msg) <> YOUR_WHATSAPP_NUMBER cfg ->
  handleWhatsAppMessage T cfg msg w tr = (Normal tt, w, tr).
Proof.
  intros Hme Hfrom.
  unfold handleWhatsAppMessage, try_catch, handle_body, from_owner.
  rewrite Hme. apply streq_neq in Hfrom. rewrite Hfrom. reflexivity.
Qed.

Lemma strangers_are_ignored_witness :
  handleWhatsAppMessage flaky john_settings
    (mkMessage (str "34999888777@c.us") false (str "tg:john hi")) 0 []
  = (Normal tt, 0, []).
Proof.
  apply strangers_are_ignored; [reflexivity | discriminate].
Defined.

Lemma remove_chat_suffix (n : jsstring) :
  includes "@" n = false -> remove_first (str "@c.us") (n ++ str "@c.us") = n.
Proof.
  unfold includes. induction n as [|c n IH]; intros H; [reflexivity|].
  cbn [existsb] in H. apply orb_false_iff in H as [Hc Hn].
  rewrite Ascii.eqb_sym in Hc.
  cbn [app remove_first]. change (str "@c.us") with ("@"%char :: str "c.us").
  cbn [startsWith]. rewrite Hc. cbn [andb].
  change ("@"%char :: str "c.us") with (str "@c.us"). now rewrite IH.
Qed.

(** X8.  A message passes the gate when it is marked [fromMe], or when it comes
    from the chat of the configured number: [YOUR_WHATSAPP_NUMBER]
    followed by "@c.us" (the number holding no "@"). *)
Theorem owner_messages_pass_the_gate (cfg : Settings) (msg : Message) :
  includes "@" (YOUR_WHATSAPP_NUMBER cfg) = false ->
  fromMe msg = true \/ from msg = YOUR_WHATSAPP_NUMBER cfg ++ str "@c.us" ->
  from_owner cfg msg = true.
Proof.
  intros Hat [Hme | Hfrom]; unfold from_owner.
  - now rewrite Hme.
  - rewrite Hfrom, (remove_chat_suffix _ Hat), streq_refl.
    now destruct (fromMe msg).
Qed.

Lemma owner_messages_pass_the_gate_witness :
  from_owner john_settings (owner_says (str "anything")) = true.
Proof.
  apply owner_messages_pass_the_gate; [reflexivity | right; reflexivity].
Defined.




End HandlerFacts.

(** ** What the Telegram handler does to the two transports *)

Module InboundFacts.

Import Notions Config Effects Bridge Trace Terms JSFacts LoopFacts HandlerFacts Samples.

(** X17.  The handler never rejects, whatever the event and the transports; it
    never calls [telegramClient.sendMessage] or [msg.reply]; and it calls
    [whatsappClient.sendMessage] at most once, then for the owner's chat
    and with the event's text unchanged after the header line. *)
Theorem telegram_handler_forwards_at_most_once
    (W : Type) (T : Transport W) (cfg : Settings) (event : NewMessageEvent)
    (w : W) (tr : list Event) :
  exists w' evs,
    onNewMessage T cfg event w tr = (Normal tt, w', tr ++ evs)
    /\ telegram_sends evs = []
    /\ replies evs = []
    /\ List.length (whatsapp_sends evs) <= 1
    /\ forall s, In s (whatsapp_sends evs) ->
         exists txt, event_text event = Some txt /\ forwards cfg txt s.
Proof.
  assert (Hquiet : forall evs : list Event,
             whatsapp_sends evs = [] -> telegram_sends evs = [] ->
             replies evs = [] ->
             telegram_sends evs = [] /\ replies evs = []
             /\ List.length (whatsapp_sends evs) <= 1
             /\ forall s, In s (whatsapp_sends evs) ->
                  exists txt, event_text event = Some txt /\ forwards cfg txt s).
  { intros evs Hw Ht Hr. rewrite Hw. repeat split; try assumption.
    - cbn. lia.
    - intros s []. }
  unfold onNewMessage, try_catch.
  destruct (message event) as [m|] eqn:Hm.
  2:{ exists w, []. rewrite app_nil_r. split; [reflexivity|]. now apply Hquiet. }
  destruct (text m) as [[|c r]|] eqn:Htext.
  1,3:exists w, []; rewrite app_nil_r; (split; [reflexivity|]); now apply Hquiet.
  assert (Htxt : event_text event = Some (c :: r)).
  { unfold event_text. now rewrite Hm, Htext. }
  destruct (senderId m) as [sid|].
  2:{ unfold throw, console_error. eexists w, [_]. split; [reflexivity|].
      now apply Hquiet. }
  destruct (isFriend cfg sid); cbn [negb].
  2:{ exists w, []. rewrite app_nil_r. split; [reflexivity|]. now apply Hquiet. }
  unfold forward_to_whatsapp, Effects.bind at 1, await_getSender.
  destruct (message_getSender T w) as [[[sender|]|err] w1].
  - cbv [Effects.bind console_log await_whatsapp_send].
    destruct (whatsapp_sendMessage T w1 _ _) as [r2 w2].
    destruct r2 as [|err]; cbn [settle ret throw]; unfold ret, throw, console_error;
      eexists w2, [_; _; _; _; _; _]; rewrite <- !app_assoc;
      (split; [reflexivity|]);
      (split; [reflexivity|]); (split; [reflexivity|]);
      (split; [cbn; lia|]);
      intros s [<- | []]; exists (c :: r); (split; [exact Htxt|]);
      (split; [reflexivity|]); eexists; reflexivity.
  - unfold throw, console_error. eexists w1, [_; _]. rewrite <- !app_assoc.
    split; [reflexivity|]. now apply Hquiet.
  - unfold console_error. eexists w1, [_; _]. rewrite <- !app_assoc.
    split; [reflexivity|]. now apply Hquiet.
Qed.

(** X18.  An event without a message, or whose message has no text or an empty
    one, is dropped with no effect at all. *)
Theorem textless_events_are_ignored
    (W : Type) (T : Transport W) (cfg : Settings) (event : NewMessageEvent)
    (w : W) (tr : list Event) :
  event_text event = None ->
  onNewMessage T cfg event w tr = (Normal tt, w, tr).
Proof.
  unfold event_text, onNewMessage, try_catch.
  destruct (message event) as [m|]; [|reflexivity].
  destruct (text m) as [[|c r]|]; [reflexivity | discriminate | reflexivity].
Qed.

Lemma textless_events_are_ignored_witness :
  onNewMessage flaky john_settings
    (mkEvent (Some (mkTelegramMessage (Some []) (Some 111%Z)))) 0 []
  = (Normal tt, 0, []).
Proof. apply textless_events_are_ignored. reflexivity. Defined.

End InboundFacts.

(** ** More on the configuration block (lines 36-145) *)

Module StartupFacts.

Import Notions Config Effects Bridge Trace Terms JSFacts ParseFacts ConfigFacts Samples.

Lemma own_update_lookup {V : Type} (o : Obj.object V) (k : jsstring) (v : V)
    (k' : jsstring) :
  Obj.own (Obj.update o k v) k' = if streq k k' then Some v else Obj.own o k'.
Proof.
  induction o as [|[k0 v0] o IH]; cbn [Obj.update Obj.own].
  - now destruct (streq k k').
  - destruct (streq k0 k) eqn:E0; cbn [Obj.own].
    + apply streq_eq in E0. subst k0. now destruct (streq k k').
    + rewrite IH. destruct (streq k0 k') eqn:E1; [|reflexivity].
      apply streq_eq in E1. subst k0.
      assert (E2 : streq k k' = false).
      { apply streq_neq. apply streq_neq in E0. congruence. }
      now rewrite E2.
Qed.

Lemma digits_no_underscore (z : Z) : streq (Z_toString z) (str "__proto__") = false.
Proof.
  apply streq_neq. unfold Z_toString, NilZero.string_of_int.
  destruct (Z.to_int z) as [d|d]; [|discriminate].
  unfold NilZero.string_of_uint.
  destruct d; cbn; discriminate.
Qed.

Lemma add_pair_lookup (maps maps' : TagMaps) (pair : jsstring) :
  add_pair maps pair = Running maps' ->
  forall k,
    Obj.own (fst maps') k = id_step k (Obj.own (fst maps) k) pair
    /\ Obj.own (snd maps') k = tag_step k (Obj.own (snd maps) k) pair.
Proof.
  unfold add_pair, id_step, tag_step, pair_binding.
  destruct (map trim (split ":" pair)) as [|tag [|id rest]];
    try (intros E; injection E as <-; now split).
  destruct (nonempty tag && nonempty id);
    [|intros E; injection E as <-; now split].
  destruct (BigInt id) as [z|]; [|discriminate].
  intros E. injection E as <-. cbn [fst snd]. intros k. unfold Obj.set.
  rewrite digits_no_underscore, !own_update_lookup. split; [|reflexivity].
  destruct (streq (toLowerCase tag) (str "__proto__")); [reflexivity|].
  apply own_update_lookup.
Qed.

Lemma add_pairs_lookup (pairs : list jsstring) :
  forall (maps maps' : TagMaps),
  add_pairs maps pairs = Running maps' ->
  forall k,
    Obj.own (fst maps') k = fold_left (id_step k) pairs (Obj.own (fst maps) k)
    /\ Obj.own (snd maps') k = fold_left (tag_step k) pairs (Obj.own (snd maps) k).
Proof.
  induction pairs as [|p pairs IH]; cbn [add_pairs fold_left]; intros maps maps' H k.
  - injection H as <-. now split.
  - destruct (add_pair maps p) as [m1| |] eqn:Hp; cbn [Config.bind] in H;
      try discriminate.
    destruct (@add_pair_lookup maps m1 p Hp k) as [<- <-].
    now apply IH.
Qed.

(** The tag list is read to the end exactly when every entry that is taken
    has an identifier [BigInt] accepts; otherwise the SyntaxError of
    [BigInt] leaves the module.  It never calls [process.exit]. *)
Lemma add_pairs_outcome (pairs : list jsstring) :
  forall maps : TagMaps,
  if forallb pair_ok pairs
  then exists maps', add_pairs maps pairs = Running maps'
  else add_pairs maps pairs = Uncaught SyntaxError.
Proof.
  induction pairs as [|p pairs IH]; cbn [forallb add_pairs]; intros maps.
  - now exists maps.
  - unfold pair_ok at 1, add_pair.
    destruct (map trim (split ":" p)) as [|tag [|id rest]]; cbn [andb Config.bind];
      try apply IH.
    destruct (nonempty tag && nonempty id); cbn [andb Config.bind]; [|apply IH].
    destruct (BigInt id); cbn [andb Config.bind]; [apply IH | reflexivity].
Qed.



Lemma pair_binding_inv (pair key tag : jsstring) (z : Z) :
  pair_binding pair = Some (key, tag, z) ->
  key = toLowerCase tag /\ tag <> [] /\ In z (pair_id pair).
Proof.
  unfold pair_binding, pair_id.
  destruct (map trim (split ":" pair)) as [|t [|id rest]]; try discriminate.
  destruct (nonempty t && nonempty id) eqn:Hne; [|discriminate].
  destruct (BigInt id) as [z'|]; [|discriminate].
  intros E. injection E as <- <- <-.
  apply andb_true_iff in Hne as [Ht _].
  repeat split; [now destruct t | now left].
Qed.

Lemma fold_id_some (k : jsstring) (pairs : list jsstring) :
  forall (acc : option Z) (z : Z),
  fold_left (id_step k) pairs acc = Some z ->
  acc = Some z
  \/ exists pair tag, In pair pairs /\ pair_binding pair = Some (k, tag, z).
Proof.
  induction pairs as [|p pairs IH]; cbn [fold_left]; intros acc z H; [now left|].
  destruct (IH _ _ H) as [Hstep | (pair & tag & Hin & Hb)].
  - unfold id_step in Hstep.
    destruct (pair_binding p) as [[[key tag] z']|] eqn:Hp; [|now left].
    destruct (streq key (str "__proto__")); [now left|].
    destruct (streq key k) eqn:Hk; [|now left].
    apply streq_eq in Hk. subst key. injection Hstep as ->.
    right. exists p, tag. split; [now left | exact Hp].
  - right. exists pair, tag. split; [now right | exact Hb].
Qed.

Lemma fold_tag_some (key : jsstring) (pairs : list jsstring) :
  forall (acc : option jsstring) (t : jsstring),
  fold_left (tag_step key) pairs acc = Some t ->
  acc = Some t
  \/ exists pair k z, In pair pairs /\ pair_binding pair = Some (k, t, z).
Proof.
  induction pairs as [|p pairs IH]; cbn [fold_left]; intros acc t H; [now left|].
  destruct (IH _ _ H) as [Hstep | (pair & k & z & Hin & Hb)].
  - unfold tag_step in Hstep.
    destruct (pair_binding p) as [[[k tag] z]|] eqn:Hp; [|now left].
    destruct (streq (Z_toString z) key); [|now left].
    injection Hstep as ->. right. exists p, k, z. split; [now left | exact Hp].
  - right. exists pair, k, z. split; [now right | exact Hb].
Qed.

Lemma fold_tag_stays (key : jsstring) (pairs : list jsstring) :
  forall t0, exists t, fold_left (tag_step key) pairs (Some t0) = Some t.
Proof.
  induction pairs as [|p pairs IH]; cbn [fold_left]; intros t0; [now exists t0|].
  unfold tag_step at 2.
  destruct (pair_binding p) as [[[k tag] z]|]; [|apply IH].
  destruct (streq (Z_toString z) key); apply IH.
Qed.

Lemma fold_tag_found (pairs : list jsstring) (pair k tag : jsstring) (z : Z) :
  In pair pairs -> pair_binding pair = Some (k, tag, z) ->
  forall acc, exists t, fold_left (tag_step (Z_toString z)) pairs acc = Some t.
Proof.
  induction pairs as [|p pairs IH]; intros Hin Hb acc; [contradiction|].
  cbn [fold_left]. destruct Hin as [-> | Hin]; [|now apply IH].
  unfold tag_step at 2. rewrite Hb, streq_refl. apply fold_tag_stays.
Qed.

Lemma started_tag_maps (env : Env) (cfg : Settings) :
  startup env = Running cfg ->
  forallb pair_ok (tag_entries env) = true
  /\ forall k,
       Obj.own (FRIEND_TAG_MAP cfg) k = last_id k (tag_entries env)
       /\ Obj.own (FRIEND_ID_TO_TAG cfg) k = last_tag k (tag_entries env).
Proof.
  intros H. destruct (startup_inv _ H) as (s & _ & _ & Htags & _).
  unfold parse_friend_tags in Htags. unfold tag_entries, last_id, last_tag.
  destruct (or_default (env_FRIEND_TAGS env) []) as [|c r] eqn:Et; cbn [nonempty] in Htags.
  - injection Htags as <- <-. split; [reflexivity|]. intros k. split; reflexivity.
  - split.
    + pose proof (add_pairs_outcome (split "," (c :: r)) (Obj.empty, Obj.empty)) as Ho.
      destruct (forallb pair_ok (split "," (c :: r))); [reflexivity|].
      rewrite Ho in Htags. discriminate.
    + intros k. exact (@add_pairs_lookup _ _ _ Htags k).
Qed.

(** X3.  After startup, looking a key up in [FRIEND_TAG_MAP] gives the
    identifier of the last entry of the tag list whose lowercased tag is
    that key (an earlier entry for the same tag is overwritten), and
    looking an identifier's decimal notation up in [FRIEND_ID_TO_TAG]
    gives the tag, as written, of the last entry for that identifier. *)
Theorem tag_maps_keep_the_last_entry (env : Env) (cfg : Settings) (k : jsstring) :
  startup env = Running cfg ->
  Obj.own (FRIEND_TAG_MAP cfg) k = last_id k (tag_entries env)
  /\ Obj.own (FRIEND_ID_TO_TAG cfg) k = last_tag k (tag_entries env).
Proof.
  intros H. now apply started_tag_maps.
Qed.

Lemma tag_maps_keep_the_last_entry_witness :
  Obj.own (FRIEND_TAG_MAP retag_settings) (str "john")
    = last_id (str "john") (tag_entries retag_env)
  /\ Obj.own (FRIEND_ID_TO_TAG retag_settings) (str "john")
     = last_tag (str "john") (tag_entries retag_env).
Proof.
  apply (@tag_maps_keep_the_last_entry retag_env retag_settings (str "john")).
  reflexivity.
Defined.

Example the_later_entry_overwrites :
  Obj.own (FRIEND_TAG_MAP retag_settings) (str "john") = Some 222%Z
  /\ Obj.own (FRIEND_ID_TO_TAG retag_settings) (str "111") = Some (str "John").
Proof. split; reflexivity. Qed.

Lemma tag_key_origin (env : Env) (cfg : Settings) (k : jsstring) (z : Z) :
  startup env = Running cfg ->
  Obj.own (FRIEND_TAG_MAP cfg) k = Some z ->
  exists pair tag,
    In pair (tag_entries env) /\ pair_binding pair = Some (toLowerCase tag, tag, z)
    /\ k = toLowerCase tag /\ tag <> [].
Proof.
  intros H Hown.
  destruct (@started_tag_maps env cfg H) as [_ Hlook].
  destruct (Hlook k) as [Hid _]. rewrite Hown in Hid. symmetry in Hid.
  destruct (@fold_id_some _ _ _ _ Hid) as [Hnone | (pair & tag & Hin & Hb)];
    [discriminate|].
  destruct (@pair_binding_inv _ _ _ _ Hb) as (Hk & Htag & _).
  exists pair, tag. rewrite <- Hk. now repeat split.
Qed.



(** X5.  A friend who has a tag is shown with a tag: for every identifier that
    is a value of [FRIEND_TAG_MAP], the header of a forwarded message
    carries a (non-empty) tag in brackets after the sender's name. *)
Theorem tagged_friends_are_shown_with_a_tag
    (env : Env) (cfg : Settings) (k : jsstring) (z : Z) :
  startup env = Running cfg ->
  Obj.own (FRIEND_TAG_MAP cfg) k = Some z ->
  exists tag,
    tag <> []
    /\ forall senderName,
         message_header cfg senderName z
         = envelope ++ str " TG | " ++ senderName ++ str " (" ++ tag ++ str "):".
Proof.
  intros H Hown.
  destruct (@tag_key_origin env cfg k z H Hown) as (pair & tag & Hin & Hb & _).
  destruct (@started_tag_maps env cfg H) as [_ Hlook].
  destruct (Hlook (Z_toString z)) as [_ Htag].
  destruct (@fold_tag_found _ _ _ _ _ Hin Hb None) as [t Ht].
  unfold last_tag in Htag. rewrite Ht in Htag.
  assert (Hne : t <> []).
  { destruct (@fold_tag_some _ _ _ _ Ht) as [Hn | (p & k' & z' & _ & Hb')];
      [discriminate|].
    now destruct (@pair_binding_inv _ _ _ _ Hb') as (_ & Hne & _). }
  exists t. split; [exact Hne|]. intros senderName.
  unfold message_header, Obj.get. rewrite Htag.
  destruct t; [contradiction | reflexivity].
Qed.

Lemma tagged_friends_are_shown_with_a_tag_witness :
  exists tag,
    tag <> []
    /\ forall senderName,
         message_header john_settings senderName 111
         = envelope ++ str " TG | " ++ senderName ++ str " (" ++ tag ++ str "):".
Proof.
  apply (@tagged_friends_are_shown_with_a_tag john_env john_settings (str "john") 111);
    reflexivity.
Defined.

(** *** When the bridge starts *)

Lemma map_ids_digits (l : list jsstring) :
  forallb all_digits l = true -> exists zs, map_ids l = Running zs.
Proof.
  induction l as [|id l IH]; cbn [forallb map_ids]; intros H; [now exists []|].
  apply andb_true_iff in H as [Hd Hl].
  destruct (IH Hl) as [zs Hzs].
  destruct (@BigInt_digits id Hd) as [z Hz].
  assert (Hc : includes ":" id = false).
  { unfold all_digits in Hd. destruct id as [|c r]; [discriminate|].
    unfold includes. apply not_true_iff_false. intros Hex.
    apply existsb_exists in Hex as (x & Hin & Hx).
    apply Ascii.eqb_eq in Hx. subst x.
    rewrite forallb_forall in Hd. specialize (Hd _ Hin). discriminate. }
  unfold convert_id. rewrite Hc, Hd, Hz. cbn [negb Config.bind].
  rewrite Hzs. now exists (z :: zs).
Qed.

Lemma started_number (env : Env) (cfg : Settings) :
  startup env = Running cfg ->
  env_YOUR_WHATSAPP_NUMBER env = Some (YOUR_WHATSAPP_NUMBER cfg)
  /\ YOUR_WHATSAPP_NUMBER cfg <> []
  /\ YOUR_WHATSAPP_NUMBER cfg <> str "34000000000".
Proof.
  unfold startup.
  destruct (parse_friend_ids _) as [ids| |]; cbn [Config.bind]; try discriminate.
  destruct (parse_friend_tags _) as [maps| |]; cbn [Config.bind]; try discriminate.
  unfold check.
  repeat match goal with
         | |- context [Config.bind (if ?b then _ else _) _] =>
             destruct b; cbn [negb Config.bind]; try discriminate
         end.
  destruct (env_YOUR_WHATSAPP_NUMBER env) as [[|c r]|]; try discriminate.
  destruct (streq (c :: r) (str "34000000000")) eqn:Hs; [discriminate|].
  intros E. injection E as <-. cbn.
  split; [reflexivity|]. split; [discriminate | now apply streq_neq].
Qed.

(** X1.  The bridge gets past the configuration block exactly when the
    identifier list is there and keeps at least one entry, all kept entries
    being strings of digits; every taken entry of the tag list has an
    identifier [BigInt] accepts; TELEGRAM_API_ID parses to a non-zero
    number; TELEGRAM_API_HASH and TELEGRAM_PHONE are non-empty; the session
    file exists; and YOUR_WHATSAPP_NUMBER is non-empty and not the
    placeholder. *)
Theorem bridge_starts_exactly_when_well_configured (env : Env) :
  (exists cfg, startup env = Running cfg) <-> well_configured env.
Proof.
  split.
  - intros [cfg H].
    destruct (@startup_inv env cfg H)
      as (s & Hs & Hids & _ & Hne & Hapi & Hhash & Hphone & Hsession & _).
    destruct (@started_number env cfg H) as (Hnum & Hn1 & Hn2).
    destruct (@started_tag_maps env cfg H) as [Htags _].
    destruct (@map_ids_running _ _ Hids) as [Hmap Hdig].
    unfold well_configured. repeat split; try assumption.
    + exists s. repeat split; try assumption.
      intros He. apply Hne. rewrite He in Hmap. cbn in Hmap.
      now destruct (FRIEND_TELEGRAM_IDS cfg).
    + rewrite Hnum. now destruct (YOUR_WHATSAPP_NUMBER cfg).
    + rewrite Hnum. congruence.
  - intros ((s & Hs & Hdig & Hne) & Htags & Hapi & Hhash & Hphone & Hsession
            & Hnum & Hph).
    destruct (@map_ids_digits _ Hdig) as [zs Hzs].
    assert (Hlen : zs <> []).
    { destruct (@map_ids_running _ _ Hzs) as [Hmap _].
      intros ->. cbn in Hmap. now destruct (id_entries s). }
    assert (Hmaps : exists maps,
               parse_friend_tags (or_default (env_FRIEND_TAGS env) []) = Running maps).
    { unfold parse_friend_tags.
      destruct (nonempty (or_default (env_FRIEND_TAGS env) [])); [|now eexists].
      pose proof (add_pairs_outcome (tag_entries env) (Obj.empty, Obj.empty)) as Ho.
      rewrite Htags in Ho. exact Ho. }
    destruct Hmaps as [maps Hmaps].
    unfold startup, parse_friend_ids. rewrite Hs, Hzs, Hmaps. cbn [Config.bind].
    unfold check. rewrite Hapi, Hhash, Hphone, Hsession. cbn [negb Config.bind].
    destruct zs as [|z zs]; [contradiction|]. cbn [List.length Nat.eqb Config.bind].
    destruct (env_YOUR_WHATSAPP_NUMBER env) as [[|c r]|]; try discriminate.
    destruct (streq (c :: r) (str "34000000000")) eqn:Hs2.
    + apply streq_eq in Hs2. rewrite Hs2 in Hph. contradiction.
    + eexists. reflexivity.
Qed.

Lemma bridge_starts_exactly_when_well_configured_witness :
  well_configured john_env.
Proof.
  apply (proj1 (bridge_starts_exactly_when_well_configured john_env)).
  exists john_settings. reflexivity.
Defined.

Lemma digit_value_range (c : ascii) (d : Z) :
  digit_value 10 c = Some d -> (0 <= d < 10)%Z.
Proof.
  destruct c as [[] [] [] [] [] [] [] []]; intros E; vm_compute in E;
    try discriminate E; injection E as <-; lia.
Qed.

Lemma parse_digits_nonneg (s : jsstring) :
  forall acc z, (0 <= acc)%Z -> parse_digits 10 acc s = Some z -> (0 <= z)%Z.
Proof.
  induction s as [|c s IH]; cbn [parse_digits]; intros acc z Hacc H.
  - now injection H as <-.
  - destruct (digit_value 10 c) as [d|] eqn:Hd; [|discriminate].
    apply digit_value_range in Hd. apply (IH (acc * 10 + d)%Z); [lia | exact H].
Qed.

(** [BigInt] reads a string of digits as a decimal number. *)
Lemma BigInt_digits_decimal (s : jsstring) :
  all_digits s = true -> BigInt s = parse_digits 10 0 s.
Proof.
  unfold all_digits. destruct s as [|c0 r0]; [discriminate|]. intros H.
  unfold BigInt. rewrite (trim_digits _ H).
  pose proof H as H'. cbn [forallb] in H'. apply andb_true_iff in H' as [Hc0 Hr0].
  destruct (digit_is_no_sign _ Hc0) as (Hp & Hm & _).
  rewrite Hp, Hm. unfold parse_number.
  destruct r0 as [|c1 r1]; [reflexivity|].
  cbn [forallb] in Hr0. apply andb_true_iff in Hr0 as [Hc1 _].
  destruct (digit_is_no_sign _ Hc1) as (_ & _ & Hx & HX & Ho & HO & Hb & HB).
  rewrite Hx, HX, Ho, HO, Hb, HB. cbn [orb].
  now destruct (Ascii.eqb c0 "0").
Qed.

Lemma map_ids_nonneg (l : list jsstring) (zs : list Z) :
  map_ids l = Running zs -> Forall (fun z => (0 <= z)%Z) zs.
Proof.
  intros H. destruct (@map_ids_running l zs H) as [Hmap Hdig].
  clear H. revert zs Hmap Hdig.
  induction l as [|id l IH]; intros [|z zs] Hmap Hdig;
    try discriminate; [constructor|].
  cbn [forallb] in Hdig. apply andb_true_iff in Hdig as [Hd Hl].
  cbn [map] in Hmap. injection Hmap as Hz Hrest.
  constructor; [|now apply IH].
  rewrite (BigInt_digits_decimal _ Hd) in Hz.
  now apply (@parse_digits_nonneg id 0 z).
Qed.

(** X2.  Once the bridge is past the configuration block, the constants the
    handlers read are sound: there is at least one friend and no
    identifier is negative; the owner's number is neither empty nor the
    placeholder; and the prefix is never empty, being the configured one
    when that is set and not empty and "tg:" otherwise. *)
Theorem started_bridge_has_sound_settings (env : Env) (cfg : Settings) :
  startup env = Running cfg ->
  FRIEND_TELEGRAM_IDS cfg <> []
  /\ Forall (fun z => (0 <= z)%Z) (FRIEND_TELEGRAM_IDS cfg)
  /\ YOUR_WHATSAPP_NUMBER cfg <> []
  /\ YOUR_WHATSAPP_NUMBER cfg <> str "34000000000"
  /\ MESSAGE_PREFIX cfg <> []
  /\ (if truthy (env_MESSAGE_PREFIX env)
      then env_MESSAGE_PREFIX env = Some (MESSAGE_PREFIX cfg)
      else MESSAGE_PREFIX cfg = str "tg:").
Proof.
  intros H.
  destruct (@startup_inv env cfg H)
    as (s & _ & Hids & _ & Hne & _ & _ & _ & _ & _ & Hprefix).
  destruct (@started_number env cfg H) as (_ & Hn1 & Hn2).
  split; [exact Hne|]. split; [now apply (@map_ids_nonneg (id_entries s))|].
  split; [exact Hn1|]. split; [exact Hn2|].
  rewrite Hprefix. unfold or_default, js_or.
  destruct (env_MESSAGE_PREFIX env) as [[|c r]|]; cbn [truthy];
    split; try reflexivity; discriminate.
Qed.

Lemma started_bridge_has_sound_settings_witness :
  FRIEND_TELEGRAM_IDS john_settings <> []
  /\ Forall (fun z => (0 <= z)%Z) (FRIEND_TELEGRAM_IDS john_settings)
  /\ YOUR_WHATSAPP_NUMBER john_settings <> []
  /\ YOUR_WHATSAPP_NUMBER john_settings <> str "34000000000"
  /\ MESSAGE_PREFIX john_settings <> []
  /\ (if truthy (env_MESSAGE_PREFIX john_env)
      then env_MESSAGE_PREFIX john_env = Some (MESSAGE_PREFIX john_settings)
      else MESSAGE_PREFIX john_settings = str "tg:").
Proof.
  apply (@started_bridge_has_sound_settings john_env john_settings). reflexivity.
Defined.

End StartupFacts.

Module LifecycleFacts.

Import Config Effects Bridge Lifecycle.

(** A trace built by appending one step after another, as one list. *)
Ltac flatten_trace :=
  repeat rewrite <- app_assoc; cbn [app].

(** X20.  The shutdown always goes through: whether or not the Telegram
    disconnect fails, WhatsApp is destroyed next, each client being
    addressed exactly once, and the process then exits with status 0. *)
Theorem shutdown_addresses_both_clients
    (W : Type) (C : Clients W) (w : W) (tr : list Step) :
  exists evs,
    shutdown C w tr
    = (Exited 0, snd (whatsapp_destroy C (snd (telegram_disconnect C w))), tr ++ evs)
    /\ calls evs
       = [Disconnect (fst (telegram_disconnect C w));
          Destroy (fst (whatsapp_destroy C (snd (telegram_disconnect C w))));
          ProcessExit 0].
Proof.
  unfold shutdown, andThen, tryCatch, log, logError, exit, await.
  destruct (telegram_disconnect C w) as [r1 w1]. cbn [fst snd].
  destruct r1 as [|m1]; cbv beta iota;
    destruct (whatsapp_destroy C w1) as [r2 w2]; cbn [fst snd];
    destruct r2 as [|m2];
    eexists [_; _; _; _; _; _; _; _]; flatten_trace;
    (split; [reflexivity | reflexivity]).
Qed.

(** X19.  The start is all or nothing.  Either Telegram connects, the account is
    fetched, the message handler is registered and then WhatsApp is
    initialised, in that order, and the script goes on; or the first call
    that fails is the last one made and the process exits with status 1.
    WhatsApp is never initialised before the Telegram handler is in
    place. *)
Theorem start_is_all_or_nothing
    (W : Type) (C : Clients W) (cfg : Settings) (w : W) (tr : list Step) :
  exists ending w' evs,
    start C cfg w tr = (ending, w', tr ++ evs)
    /\ ((ending = Done tt
         /\ calls evs
            = [Connect Resolved; GetMe true; AddEventHandler; Initialize Resolved])
        \/ (ending = Exited 1
            /\ exists m,
                 calls evs = [Connect (Rejected m); ProcessExit 1]
                 \/ calls evs = [Connect Resolved; GetMe false; ProcessExit 1]
                 \/ calls evs
                    = [Connect Resolved; GetMe true; AddEventHandler;
                       Initialize (Rejected m); ProcessExit 1])).
Proof.
  unfold start, setupTelegramForwarding, tryCatch, andThen at 1, await at 1.
  destruct (telegram_connect C w) as [r1 w1].
  destruct r1 as [|m1].
  2:{ unfold andThen, logError, exit.
      eexists _, w1, _. flatten_trace.
      split; [reflexivity|]. right. split; [reflexivity|].
      exists m1. left. reflexivity. }
  unfold andThen at 1, andThen at 1, await_getMe.
  destruct (telegram_getMe C w1) as [[me|m2] w2].
  2:{ unfold andThen, logError, exit.
      eexists _, w2, _. flatten_trace.
      split; [reflexivity|]. right. split; [reflexivity|].
      exists m2. right. left. reflexivity. }
  unfold andThen, log, addEventHandler, await.
  destruct (whatsapp_initialize C w2) as [r3 w3].
  destruct r3 as [|m3].
  - eexists _, w3, _. flatten_trace.
    split; [reflexivity|]. left. split; reflexivity.
  - unfold logError, exit.
    eexists _, w3, _.
    flatten_trace.
    split; [reflexivity|]. right. split; [reflexivity|].
    exists m3. right. right. reflexivity.
Qed.

End LifecycleFacts.

(* ================================================================== *)
(** ** Identifiers and their decimal notation (lines 93, 343, 417, 431) *)

Module IdentifierFacts.

Import Notions Config Effects Bridge JSFacts ConfigFacts StartupFacts.

Lemma parse_printed_digits (d : Decimal.uint) :
  forall acc,
    parse_digits 10 acc (str (NilEmpty.string_of_uint d)) = Some (uint_value acc d)
    /\ forallb is_digit (str (NilEmpty.string_of_uint d)) = true.
Proof.
  induction d; intros acc; cbn [NilEmpty.string_of_uint uint_value];
    try (split; reflexivity);
    unfold str in *; cbn [list_ascii_of_string parse_digits forallb];
    match goal with
    | |- context [digit_value 10 ?c] =>
        let v := eval vm_compute in (digit_value 10 c) in
        change (digit_value 10 c) with v
    end;
    match goal with
    | |- context [is_digit ?c] =>
        let v := eval vm_compute in (is_digit c) in
        change (is_digit c) with v
    end;
    cbn [andb]; apply IHd.
Qed.

Lemma uint_value_pos (d : Decimal.uint) :
  forall acc : positive, uint_value (Z.pos acc) d = Z.pos (Pos.of_uint_acc d acc).
Proof.
  induction d; intros acc; cbn [uint_value Pos.of_uint_acc];
    try reflexivity; rewrite <- IHd; f_equal; lia.
Qed.

Lemma uint_value_zero (d : Decimal.uint) : uint_value 0 d = Z.of_uint d.
Proof.
  unfold Z.of_uint.
  induction d; cbn [uint_value Pos.of_uint]; try reflexivity;
    try exact IHd;
    (change (0 * 10 + 1)%Z with (Z.pos 1) || change (0 * 10 + 2)%Z with (Z.pos 2)
     || change (0 * 10 + 3)%Z with (Z.pos 3) || change (0 * 10 + 4)%Z with (Z.pos 4)
     || change (0 * 10 + 5)%Z with (Z.pos 5) || change (0 * 10 + 6)%Z with (Z.pos 6)
     || change (0 * 10 + 7)%Z with (Z.pos 7) || change (0 * 10 + 8)%Z with (Z.pos 8)
     || change (0 * 10 + 9)%Z with (Z.pos 9));
    apply uint_value_pos.
Qed.

(** The decimal notation of a natural number reads back as that number. *)
Lemma read_printed_uint (d : Decimal.uint) :
  all_digits (str (NilZero.string_of_uint d)) = true
  /\ parse_digits 10 0 (str (NilZero.string_of_uint d)) = Some (Z.of_uint d).
Proof.
  destruct (parse_printed_digits d 0) as [Hp Hd].
  rewrite uint_value_zero in Hp.
  destruct d; [split; reflexivity | ..];
    (unfold NilZero.string_of_uint; cbv beta iota; split; [| exact Hp];
     unfold all_digits;
     destruct (str (NilEmpty.string_of_uint _)) eqn:E;
     [cbn in E; discriminate E | exact Hd]).
Qed.

Lemma minus_digits_trimmed (c : ascii) (r : jsstring) :
  forallb is_digit (c :: r) = true -> trim ("-"%char :: c :: r) = "-"%char :: c :: r.
Proof.
  intros Hd.
  assert (Hws : forall x, is_digit x = true -> is_ws x = false).
  { intros x. destruct x as [[] [] [] [] [] [] [] []]; vm_compute; congruence. }
  unfold trim, trimEnd.
  change (trimStart ("-"%char :: c :: r)) with ("-"%char :: c :: r).
  assert (Hrev : forallb is_digit (rev (c :: r)) = true).
  { apply forallb_forall. intros x Hx. apply in_rev in Hx.
    exact (proj1 (forallb_forall _ _) Hd x Hx). }
  change (rev ("-"%char :: c :: r)) with (rev (c :: r) ++ ["-"%char]).
  destruct (rev (c :: r)) as [|x xs] eqn:E.
  - apply (f_equal (@List.length _)) in E. rewrite length_rev in E. discriminate E.
  - cbn [forallb] in Hrev. apply andb_prop in Hrev as [Hx _].
    cbn [app trimStart]. rewrite (Hws x Hx).
    change (x :: xs ++ ["-"%char]) with ((x :: xs) ++ ["-"%char]).
    rewrite <- E. rewrite rev_app_distr, rev_involutive. reflexivity.
Qed.

(** X6.  Identifiers survive their decimal notation: converting the text that
    [toString] gives for an integer back with [BigInt] yields that integer.
    The Telegram handler relies on it when it turns the sender's id into a
    BigInt (line 417), and the tag display when it turns the mapped ids into
    object keys (lines 93 and 431). *)
Theorem identifier_survives_its_decimal_notation (z : Z) :
  BigInt (Z_toString z) = Some z.
Proof.
  unfold Z_toString.
  destruct z as [|p|p].
  - reflexivity.
  - change (Z.to_int (Z.pos p)) with (Decimal.Pos (Pos.to_uint p)).
    cbn [NilZero.string_of_int].
    destruct (read_printed_uint (Pos.to_uint p)) as [Hall Hp].
    rewrite (BigInt_digits_decimal _ Hall), Hp.
    f_equal. exact (DecimalZ.of_to (Z.pos p)).
  - change (Z.to_int (Z.neg p)) with (Decimal.Neg (Pos.to_uint p)).
    cbn [NilZero.string_of_int].
    destruct (read_printed_uint (Pos.to_uint p)) as [Hall Hp].
    unfold str in *. cbn [list_ascii_of_string].
    unfold all_digits in Hall.
    destruct (list_ascii_of_string (NilZero.string_of_uint (Pos.to_uint p)))
      as [|c r] eqn:E; [discriminate Hall|].
    unfold BigInt. rewrite (minus_digits_trimmed c r Hall).
    cbv zeta.
    change (Ascii.eqb "-" "+") with false.
    change (Ascii.eqb "-" "-") with true.
    change (Ascii.eqb "-" "0") with false.
    cbv iota.
    unfold parse_number. rewrite Hp. cbn [option_map].
    f_equal. change (- Z.of_uint (Pos.to_uint p) = Z.neg p)%Z.
    pose proof (DecimalZ.of_to (Z.pos p)) as H.
    change (Z.of_uint (Pos.to_uint p) = Z.pos p) in H. rewrite H. reflexivity.
Qed.

End IdentifierFacts.
